(** * GameView: the reaction game of [src/views/GameView.vue]

    A shallow embedding of the script block of the Vue component: the
    board of cell objects, the difficulty parameters, the spawner, the
    decay ticker, the click handler with its deferred removal, and the
    session controller (start / stop / reset / end / changeLevel).

    Conventions.
    - JavaScript numbers that only ever hold integers (level, score,
      counters, [timeLeft]) are [Z].  The two expressions whose value is a
      proper double ([5000 / spawnRate] and [score / totalSpawned * 100])
      are computed in IEEE-754 binary64 with the executable operations of
      [SpecFloat].
    - Cell objects live in a store ([heap]); the reactive array
      [gameBoard] holds references into it.  [initBoard] allocates 72 new
      objects, so a callback that closed over a cell of an earlier board
      keeps mutating that old object and not the rebuilt board.
    - [setInterval] handles are positive integers handed out by the host;
      the queue of pending 200 ms [setTimeout] removals is part of the
      state. *)

From Stdlib Require Import ZArith QArith Qround Qminmax Qabs Floats.SpecFloat Lia.
From Stdlib Require Strings.String Strings.Ascii Numbers.DecimalString.
From stdpp Require Import base list numbers.

Open Scope Z_scope.

(** ** IEEE-754 binary64, as used by JavaScript numbers *)

Module F64.

Definition f64 : Type := spec_float.

Definition prec : Z := 53.
Definition emax : Z := 1024.

(** The double nearest to an integer (exact below 2^53). *)
Definition of_Z (n : Z) : f64 := binary_normalize prec emax n 0 false.

Definition div : f64 → f64 → f64 := SFdiv prec emax.
Definition mul : f64 → f64 → f64 := SFmul prec emax.

(** The rational a finite double denotes. *)
Definition to_Q (x : f64) : option Q :=
  match x with
  | S754_zero _ => Some 0%Q
  | S754_finite s m e =>
      Some (inject_Z (if s then Z.neg m else Z.pos m) * (2 ^ e))%Q
  | _ => None
  end.

(** [Math.max(a, b)]: NaN if either is NaN, [+0] above [-0]. *)
Definition Math_max (a b : f64) : f64 :=
  match SFcompare a b with
  | Some Lt => b
  | Some Gt => a
  | Some Eq => match a with S754_zero true => b | _ => a end
  | None => S754_nan
  end.

(** [Math.round(x)]: [x] itself when it is not finite or already an
    integer; otherwise the nearest integer, the larger one at a tie;
    [-0] for a negative [x] that rounds to zero. *)
Definition Math_round (x : f64) : f64 :=
  match x with
  | S754_finite s m (Z.neg k) =>
      let n := if s then Z.neg m else Z.pos m in
      let r := (2 * n + 2 ^ Z.pos k) / 2 ^ (Z.pos k + 1) in
      if r =? 0 then S754_zero s else of_Z r
  | _ => x
  end.

End F64.

Import F64.

(** ** Difficulty parameters (computed properties of [level]) *)

(** [whiteDuration]: seconds a block stays, [Math.max(1, 6 - level)]. *)
Definition whiteDuration (level : Z) : Z := Z.max 1 (6 - level).

(** The lifetime given to a spawned block, [whiteDuration * 1000],
    as written in [spawnWhiteBlock]. *)
Definition blockLifetimeMs (level : Z) : Z := whiteDuration level * 1000.

(** [spawnRate]: [Math.min(10, level * 2)]. *)
Definition spawnRate (level : Z) : Z := Z.min 10 (level * 2).

(** [spawnInterval]: [Math.max(500, 5000 / spawnRate)], a double. *)
Definition spawnInterval (level : Z) : f64 :=
  Math_max (of_Z 500) (div (of_Z 5000) (of_Z (spawnRate level))).

(** The interval of the specification, in exact arithmetic. *)
Definition spawnIntervalMs_exact (level : Z) : Q :=
  Qmax 500 (5000 / inject_Z (spawnRate level))%Q.

(** ** Hit rate *)

(** [hitRate]: [0] when nothing was spawned, otherwise
    [Math.round((score / totalSpawned) * 100)] on doubles. *)
Definition hitRate (score totalSpawned : Z) : f64 :=
  if totalSpawned =? 0 then of_Z 0
  else Math_round (mul (div (of_Z score) (of_Z totalSpawned)) (of_Z 100)).

(** The hit rate of the specification's formula read in exact
    arithmetic: [score / totalSpawned * 100] rounded to the nearest
    integer, halves upwards. *)
Definition hitRate_exact (score totalSpawned : Z) : Z :=
  Qfloor (inject_Z score / inject_Z totalSpawned * 100 + (1 # 2))%Q.

(** ** Board model *)

Record Cell := mkCell {
  id : Z;
  row : Z;
  col : Z;
  isActive : bool;
  timeLeft : Z;
  isAnimating : bool
}.

Definition BOARD_ROWS : nat := 6.
Definition BOARD_COLS : nat := 12.

Definition set_isActive (b : bool) (c : Cell) : Cell :=
  mkCell (id c) (row c) (col c) b (timeLeft c) (isAnimating c).
Definition set_timeLeft (t : Z) (c : Cell) : Cell :=
  mkCell (id c) (row c) (col c) (isActive c) t (isAnimating c).
Definition set_isAnimating (b : bool) (c : Cell) : Cell :=
  mkCell (id c) (row c) (col c) (isActive c) (timeLeft c) b.

(** ** Session state

    The refs of the component, the store of cell objects they point
    into, and the host's queue of pending removal callbacks. *)

Record State := mkState {
  level : Z;
  score : Z;
  totalSpawned : Z;
  heap : list Cell;                 (* every cell object allocated so far *)
  gameBoard : list nat;             (* the array: references into [heap] *)
  gameInterval : option positive;   (* spawner timer handle, [null] = None *)
  updateInterval : option positive; (* decay timer handle *)
  gameTimer : option positive;      (* round clock handle *)
  gameTimeLeft : Z;
  isGameRunning : bool;
  isFullscreen : bool;
  cellSize : Z;
  removals : list nat               (* cells of the pending 200 ms timeouts,
                                       oldest first *)
}.

Definition set_level (v : Z) (s : State) : State :=
  mkState v (score s) (totalSpawned s) (heap s) (gameBoard s)
    (gameInterval s) (updateInterval s) (gameTimer s) (gameTimeLeft s)
    (isGameRunning s) (isFullscreen s) (cellSize s) (removals s).
Definition set_score (v : Z) (s : State) : State :=
  mkState (level s) v (totalSpawned s) (heap s) (gameBoard s)
    (gameInterval s) (updateInterval s) (gameTimer s) (gameTimeLeft s)
    (isGameRunning s) (isFullscreen s) (cellSize s) (removals s).
Definition set_totalSpawned (v : Z) (s : State) : State :=
  mkState (level s) (score s) v (heap s) (gameBoard s)
    (gameInterval s) (updateInterval s) (gameTimer s) (gameTimeLeft s)
    (isGameRunning s) (isFullscreen s) (cellSize s) (removals s).
Definition set_heap (v : list Cell) (s : State) : State :=
  mkState (level s) (score s) (totalSpawned s) v (gameBoard s)
    (gameInterval s) (updateInterval s) (gameTimer s) (gameTimeLeft s)
    (isGameRunning s) (isFullscreen s) (cellSize s) (removals s).
Definition set_gameBoard (v : list nat) (s : State) : State :=
  mkState (level s) (score s) (totalSpawned s) (heap s) v
    (gameInterval s) (updateInterval s) (gameTimer s) (gameTimeLeft s)
    (isGameRunning s) (isFullscreen s) (cellSize s) (removals s).
Definition set_gameInterval (v : option positive) (s : State) : State :=
  mkState (level s) (score s) (totalSpawned s) (heap s) (gameBoard s)
    v (updateInterval s) (gameTimer s) (gameTimeLeft s)
    (isGameRunning s) (isFullscreen s) (cellSize s) (removals s).
Definition set_updateInterval (v : option positive) (s : State) : State :=
  mkState (level s) (score s) (totalSpawned s) (heap s) (gameBoard s)
    (gameInterval s) v (gameTimer s) (gameTimeLeft s)
    (isGameRunning s) (isFullscreen s) (cellSize s) (removals s).
Definition set_gameTimer (v : option positive) (s : State) : State :=
  mkState (level s) (score s) (totalSpawned s) (heap s) (gameBoard s)
    (gameInterval s) (updateInterval s) v (gameTimeLeft s)
    (isGameRunning s) (isFullscreen s) (cellSize s) (removals s).
Definition set_gameTimeLeft (v : Z) (s : State) : State :=
  mkState (level s) (score s) (totalSpawned s) (heap s) (gameBoard s)
    (gameInterval s) (updateInterval s) (gameTimer s) v
    (isGameRunning s) (isFullscreen s) (cellSize s) (removals s).
Definition set_isGameRunning (v : bool) (s : State) : State :=
  mkState (level s) (score s) (totalSpawned s) (heap s) (gameBoard s)
    (gameInterval s) (updateInterval s) (gameTimer s) (gameTimeLeft s)
    v (isFullscreen s) (cellSize s) (removals s).
Definition set_isFullscreen (v : bool) (s : State) : State :=
  mkState (level s) (score s) (totalSpawned s) (heap s) (gameBoard s)
    (gameInterval s) (updateInterval s) (gameTimer s) (gameTimeLeft s)
    (isGameRunning s) v (cellSize s) (removals s).
Definition set_cellSize (v : Z) (s : State) : State :=
  mkState (level s) (score s) (totalSpawned s) (heap s) (gameBoard s)
    (gameInterval s) (updateInterval s) (gameTimer s) (gameTimeLeft s)
    (isGameRunning s) (isFullscreen s) v (removals s).
Definition set_removals (v : list nat) (s : State) : State :=
  mkState (level s) (score s) (totalSpawned s) (heap s) (gameBoard s)
    (gameInterval s) (updateInterval s) (gameTimer s) (gameTimeLeft s)
    (isGameRunning s) (isFullscreen s) (cellSize s) v.

(** The refs as the script block initialises them. *)
Definition initialState : State :=
  mkState 1 0 0 [] [] None None None 60 false false 25 [].

(** The cells the board currently shows, in array order. *)
Definition boardCells (s : State) : list Cell :=
  omap (λ loc, heap s !! loc) (gameBoard s).

(** ** initBoard *)

(** The 72 objects pushed by the two nested loops, in push order. *)
Definition freshCells : list Cell :=
  flat_map (λ r : nat,
    map (λ c : nat,
      mkCell (Z.of_nat r * Z.of_nat BOARD_COLS + Z.of_nat c)
             (Z.of_nat r) (Z.of_nat c) false 0 false)
      (seq 0 BOARD_COLS))
    (seq 0 BOARD_ROWS).

Arguments freshCells : simpl never.

Definition initBoard (s : State) : State :=
  set_gameBoard (seq (length (heap s)) (length freshCells))
    (set_heap (heap s ++ freshCells) s).

(** ** spawnWhiteBlock *)

Definition inactiveAt (h : list Cell) (loc : nat) : bool :=
  match h !! loc with
  | Some c => negb (isActive c)
  | None => false
  end.

(** [rnd] stands for the draw of [Math.random()]: since that lies in
    [0, 1), [Math.floor(Math.random() * n)] ranges over exactly
    [0 .. n-1], which [rnd mod n] enumerates.  [None] is the [TypeError]
    an undefined [randomCell] would raise. *)
Definition spawnWhiteBlock (rnd : nat) (s : State) : option State :=
  let availableCells :=
    filter (λ loc, inactiveAt (heap s) loc = true) (gameBoard s) in
  if (length availableCells =? 0)%nat then Some s
  else
    match availableCells !! (rnd mod length availableCells)%nat with
    | None => None
    | Some randomCell =>
        Some (set_totalSpawned (totalSpawned s + 1)
               (set_heap
                  (alter (λ c, set_timeLeft (whiteDuration (level s) * 1000)
                                 (set_isActive true c))
                         randomCell (heap s))
                  s))
    end.

(** ** clickCell and its deferred removal *)

(** The [setTimeout] callback: it closed over the cell object. *)
Definition removeBlock (cell : nat) (s : State) : State :=
  set_heap
    (alter (λ c, set_timeLeft 0 (set_isAnimating false (set_isActive false c)))
           cell (heap s))
    s.

Definition clickCell (cell : nat) (s : State) : State :=
  match heap s !! cell with
  | None => s
  | Some c =>
      if negb (isActive c) || negb (isGameRunning s) then s
      else
        set_removals (removals s ++ [cell])
          (set_score (score s + 1)
             (set_heap (alter (set_isAnimating true) cell (heap s)) s))
  end.

(** The oldest pending timeout fires (all have the same 200 ms delay, so
    they fire in the order they were scheduled). *)
Definition fireRemoval (s : State) : State :=
  match removals s with
  | [] => s
  | cell :: rest => removeBlock cell (set_removals rest s)
  end.

(** ** updateGame *)

(** The body of the [forEach] callback. *)
Definition decayCell (c : Cell) : Cell :=
  if isActive c && negb (isAnimating c) then
    let c1 := set_timeLeft (timeLeft c - 100) c in
    if timeLeft c1 <=? 0 then set_timeLeft 0 (set_isActive false c1)
    else c1
  else c.

Definition updateGame (s : State) : State :=
  set_heap (foldl (λ h loc, alter decayCell loc h) (heap s) (gameBoard s)) s.

(** ** Layout *)

(** [calculateBoardSize], given [window.innerWidth] and
    [window.innerHeight]. *)
Definition calculateBoardSize (windowWidth windowHeight : Z) (s : State)
  : State :=
  let reservedHeight := if isFullscreen s then 150 else 250 in
  let availableWidth := windowWidth - 40 in
  let availableHeight := windowHeight - reservedHeight in
  let maxCellWidth := availableWidth / Z.of_nat BOARD_COLS in
  let maxCellHeight := availableHeight / Z.of_nat BOARD_ROWS in
  let size := Z.min (Z.min maxCellWidth maxCellHeight) 50 in
  set_cellSize (Z.max size 15) s.

(** [handleResize] and [handleFullscreenChange]; [fullscreenElement] is
    [!!document.fullscreenElement]. *)
Definition handleResize (windowWidth windowHeight : Z) (s : State) : State :=
  calculateBoardSize windowWidth windowHeight s.

Definition handleFullscreenChange (fullscreenElement : bool)
    (windowWidth windowHeight : Z) (s : State) : State :=
  calculateBoardSize windowWidth windowHeight
    (set_isFullscreen fullscreenElement s).

(** ** Session controller *)

(** A handle is a positive integer, hence truthy: each [if (handle)]
    branch is taken exactly when the handle is not [null]. *)
Definition stopGame (s : State) : State :=
  let s := set_isGameRunning false s in
  let s := match gameInterval s with
           | Some _ => set_gameInterval None s
           | None => s
           end in
  let s := match updateInterval s with
           | Some _ => set_updateInterval None s
           | None => s
           end in
  match gameTimer s with
  | Some _ => set_gameTimer None s
  | None => s
  end.

(** [startGame]. [h1 h2 h3] are the handles the three [setInterval] calls
    return.  [toggleFullscreen] is asynchronous: up to its first [await]
    it only issues the fullscreen request, so within [startGame] it
    changes no ref. *)
Definition startGame (h1 h2 h3 : positive) (windowWidth windowHeight : Z)
    (s : State) : State :=
  let s := stopGame s in
  let s := initBoard s in
  let s := set_score 0 s in
  let s := set_totalSpawned 0 s in
  let s := set_gameTimeLeft 60 s in
  let s := set_isGameRunning true s in
  let s := if negb (isFullscreen s) then s
           else calculateBoardSize windowWidth windowHeight s in
  let s := set_gameInterval (Some h1) s in
  let s := set_updateInterval (Some h2) s in
  set_gameTimer (Some h3) s.

Definition resetGame (s : State) : State :=
  let s := stopGame s in
  let s := initBoard s in
  let s := set_score 0 s in
  let s := set_totalSpawned 0 s in
  let s := set_gameTimeLeft 60 s in
  set_isGameRunning false s.

(** [endGame]; the alert it schedules only reads the state. *)
Definition endGame (s : State) : State :=
  set_isGameRunning false (stopGame s).

Definition changeLevel (newLevel : Z) (h1 h2 h3 : positive)
    (windowWidth windowHeight : Z) (s : State) : State :=
  let s := set_level newLevel s in
  if isGameRunning s then startGame h1 h2 h3 windowWidth windowHeight s
  else s.

(** ** Timer callbacks and the event loop *)

(** The spawner's interval callback.  An exception in a timer callback is
    reported by the host and leaves the refs as they are. *)
Definition spawnTick (rnd : nat) (s : State) : State :=
  if isGameRunning s then default s (spawnWhiteBlock rnd s) else s.

(** The round clock's interval callback. *)
Definition clockTick (s : State) : State :=
  let s := set_gameTimeLeft (gameTimeLeft s - 1) s in
  if gameTimeLeft s <=? 0 then endGame s else s.

Inductive Event :=
| EvSpawnTick (rnd : nat)
| EvDecayTick
| EvClockTick
| EvClick (i : nat)          (* the user clicks the i-th cell of the grid *)
| EvRemoval                  (* the oldest 200 ms timeout fires *)
| EvStart (h1 h2 h3 : positive) (windowWidth windowHeight : Z)
| EvStop
| EvReset
| EvChangeLevel (newLevel : Z) (h1 h2 h3 : positive)
                (windowWidth windowHeight : Z).

(** One turn of the event loop.  An interval callback runs only while
    its handle is installed; a click reaches [clickCell] with the cell
    object rendered at that position. *)
Definition step (s : State) (ev : Event) : State :=
  match ev with
  | EvSpawnTick rnd =>
      match gameInterval s with Some _ => spawnTick rnd s | None => s end
  | EvDecayTick =>
      match updateInterval s with Some _ => updateGame s | None => s end
  | EvClockTick =>
      match gameTimer s with Some _ => clockTick s | None => s end
  | EvClick i =>
      match gameBoard s !! i with Some cell => clickCell cell s | None => s end
  | EvRemoval => fireRemoval s
  | EvStart h1 h2 h3 w h => startGame h1 h2 h3 w h s
  | EvStop => stopGame s
  | EvReset => resetGame s
  | EvChangeLevel n h1 h2 h3 w h => changeLevel n h1 h2 h3 w h s
  end.

Definition run (s : State) (evs : list Event) : State := foldl step s evs.

(** The state after [onMounted]. *)
Definition mounted (windowWidth windowHeight : Z) : State :=
  calculateBoardSize windowWidth windowHeight (initBoard initialState).

(** ** Vocabulary of the properties *)

(** Structural equality of doubles ([-0] and [+0] differ, NaN equals NaN). *)
Definition f64_eqb (x y : f64) : bool :=
  match x, y with
  | S754_zero a, S754_zero b => Bool.eqb a b
  | S754_infinity a, S754_infinity b => Bool.eqb a b
  | S754_nan, S754_nan => true
  | S754_finite s m e, S754_finite s' m' e' =>
      Bool.eqb s s' && (m =? m')%positive && (e =? e')
  | _, _ => false
  end.

(** Whether [100 * score / totalSpawned] lies exactly halfway between two
    integers. *)
Definition isTie (score totalSpawned : Z) : bool :=
  (200 * score) mod (2 * totalSpawned) =? totalSpawned.

(** The quotients [score / totalSpawned], as numerators over 40, at which
    the double product [score / totalSpawned * 100] falls just below its
    exact value [n + 1/2]. *)
Definition lowTieRatios : list Z := [23; 41; 51; 87; 97; 169; 179; 189; 199].

(** Whether [score / totalSpawned] is one of them. *)
Definition isLowTie (score totalSpawned : Z) : bool :=
  existsb (λ n, 40 * score =? n * totalSpawned) lowTieRatios.

(** The comparison of the code with the exact formula at one input: the
    code gives the exact rounding, except at the low ties, which are ties
    and where it gives one less. *)
Definition hitRate_agrees (score totalSpawned : Z) : bool :=
  let r := hitRate score totalSpawned in
  let e := hitRate_exact score totalSpawned in
  if isLowTie score totalSpawned
  then isTie score totalSpawned && f64_eqb r (of_Z (e - 1))
  else f64_eqb r (of_Z e).

(** ... at every score in [0 .. maxScore] and every spawn count in
    [1 .. maxSpawned]. *)
Definition hitRate_agrees_upto (maxScore maxSpawned : Z) : bool :=
  forallb (λ t, forallb (λ s, hitRate_agrees s t) (seqZ 0 (maxScore + 1)))
    (seqZ 1 maxSpawned).

#[global] Instance Cell_eq_dec : EqDecision Cell.
Proof. solve_decision. Defined.

(** What the page shows: the refs by value, the board as the list of its
    cells' contents (the identity of the cell objects is not observable). *)
Record View := mkView {
  vLevel : Z;
  vScore : Z;
  vTotalSpawned : Z;
  vBoard : list Cell;
  vGameInterval : option positive;
  vUpdateInterval : option positive;
  vGameTimer : option positive;
  vGameTimeLeft : Z;
  vIsGameRunning : bool;
  vIsFullscreen : bool;
  vCellSize : Z
}.

(** The view of a state: the board array is read through the store. *)
Definition view (s : State) : View :=
  mkView (level s) (score s) (totalSpawned s) (boardCells s)
    (gameInterval s) (updateInterval s) (gameTimer s) (gameTimeLeft s)
    (isGameRunning s) (isFullscreen s) (cellSize s).

(** Every reference of the array is distinct and points into the store. *)
Definition board_wf (s : State) : Prop :=
  NoDup (gameBoard s) ∧ Forall (λ loc, (loc < length (heap s))%nat) (gameBoard s).

#[global] Instance board_wf_dec (s : State) : Decision (board_wf s).
Proof. unfold board_wf. apply _. Defined.

(** No inactive cell has time left, and no [timeLeft] is negative. *)
Definition cell_ok (c : Cell) : Prop :=
  ¬ (isActive c = false ∧ 0 < timeLeft c) ∧ 0 ≤ timeLeft c.

(** ... for every cell the board shows. *)
Definition board_inv (s : State) : Prop := Forall cell_ok (boardCells s).

#[global] Instance cell_ok_dec (c : Cell) : Decision (cell_ok c).
Proof. unfold cell_ok. apply _. Defined.

#[global] Instance board_inv_dec (s : State) : Decision (board_inv s).
Proof. unfold board_inv. apply _. Defined.

(** [h'] has the cells of [h], each changed in a way that keeps [cell_ok]. *)
Definition heap_keeps_ok (h h' : list Cell) : Prop :=
  ∀ loc c', h' !! loc = Some c' →
    ∃ c, h !! loc = Some c ∧ (cell_ok c → cell_ok c').

(** A round started on a 1280 x 720 window. *)
Definition started : State :=
  startGame 1 2 3 1280 720 (mounted 1280 720).

(** ... and its first spawn, which lands on cell 5. *)
Definition firstSpawn : State := step started (EvSpawnTick 5).

(** The round of [firstSpawn] after the block on cell 5 was clicked once:
    the cell is active and animating, its removal is pending. *)
Definition firstClick : State := step firstSpawn (EvClick 5).

(** A round in which 72 spawner ticks went by without a decay tick or a
    click: every cell holds a block. *)
Definition fullBoard : State := run started (replicate 72 (EvSpawnTick 0)).

(** A block that can still be scored once. *)
Definition live (c : Cell) : Z :=
  if isActive c && negb (isAnimating c) then 1 else 0.

(** ... read through a reference; a dangling reference counts for none. *)
Definition liveAt (h : list Cell) (loc : nat) : Z :=
  from_option live 0 (h !! loc).

(** The number of such blocks among the cells of a board array. *)
Definition liveCount (h : list Cell) (board : list nat) : Z :=
  foldr (λ loc n, liveAt h loc + n) 0 board.

Definition liveBlocks (s : State) : Z := liveCount (heap s) (gameBoard s).

(** Every point scored and every block still waiting is accounted for by
    a spawn. *)
Definition score_inv (s : State) : Prop :=
  NoDup (gameBoard s) ∧ score s + liveBlocks s ≤ totalSpawned s.

(** The event is not a click on a cell whose removal is under way. *)
Definition guarded (s : State) (ev : Event) : Prop :=
  match ev with
  | EvClick i =>
      ∀ cell c, gameBoard s !! i = Some cell → heap s !! cell = Some c →
                isAnimating c = false
  | _ => True
  end.

(** ... for each event of a run, in the state it occurs in. *)
Fixpoint guarded_run (s : State) (evs : list Event) : Prop :=
  match evs with
  | [] => True
  | ev :: evs' => guarded s ev ∧ guarded_run (step s ev) evs'
  end.

(** ** Clock display *)

Module Clock.
Import Stdlib.Strings.String Stdlib.Strings.Ascii.
Local Open Scope string_scope.

(** [Number.prototype.toString] on an integer: its decimal digits, with a
    leading [-] when negative. *)
Definition toString (n : Z) : string :=
  DecimalString.NilZero.string_of_int (Z.to_int n).

(** [str.padStart(targetLength, padChar)] for a one-character pad. *)
Definition padStart (targetLength : nat) (padChar : ascii) (str : string)
  : string :=
  string_of_list_ascii (List.repeat padChar (targetLength - length str)) ++ str.

(** [formatTime]: [Math.floor(gameTimeLeft / 60)] minutes, and
    [gameTimeLeft % 60] seconds (the remainder has the sign of the
    dividend) padded to two characters. *)
Definition formatTime (gameTimeLeft : Z) : string :=
  let minutes := gameTimeLeft / 60 in
  let seconds := Z.rem gameTimeLeft 60 in
  toString minutes ++ ":" ++ padStart 2 "0" (toString seconds).

(** Reading a decimal integer, and reading a displayed time back into
    seconds; these are not in the source, they state that the display
    loses no information. *)
Definition parseInt (str : string) : option Z :=
  match DecimalString.NilZero.int_of_string str with
  | Some d => Some (Z.of_int d)
  | None => None
  end.

Definition parseTime (str : string) : option Z :=
  match index 0 ":" str with
  | Some i =>
      match parseInt (substring 0 i str),
            parseInt (substring (S i) (length str - S i) str) with
      | Some m, Some s => Some (m * 60 + s)
      | _, _ => None
      end
  | None => None
  end.

(** The digit character of [d] in [0 .. 9]. *)
Definition digit (d : Z) : ascii := ascii_of_nat (48 + Z.to_nat d).

(** The display [M:SS] of a time below ten minutes. *)
Definition display (t : Z) : string :=
  String (digit (t / 60))
    (String ":"
       (String (digit (t mod 60 / 10)) (String (digit (t mod 10)) ""))).

Definition formatTime_ok (t : Z) : bool :=
  (formatTime t =? display t)
  && match parseTime (formatTime t) with
     | Some t' => (t' =? t)%Z
     | None => false
     end.

End Clock.

(** ** Further vocabulary *)

(** The integer a double denotes, when it denotes one. *)
Definition f64_to_Z (x : f64) : option Z :=
  match x with
  | S754_zero _ => Some 0
  | S754_finite s m e =>
      let n := if s then Z.neg m else Z.pos m in
      match e with
      | Z.neg k => if n mod 2 ^ Z.pos k =? 0 then Some (n / 2 ^ Z.pos k)
                   else None
      | _ => Some (n * 2 ^ e)
      end
  | _ => None
  end.

(** The hit rate as the integer the page prints. *)
Definition hitRatePercent (score totalSpawned : Z) : Z :=
  default (-1) (f64_to_Z (hitRate score totalSpawned)).

(** One row of the table of hit rates: at [totalSpawned] spawns, every
    score from 0 to [totalSpawned] prints an integer percentage that
    starts at 0, ends at 100, never decreases and is strictly between the
    two elsewhere. *)
Definition hitRate_row_ok (totalSpawned : Z) : bool :=
  forallb (λ s,
      let r := hitRate s totalSpawned in
      let p := default (-1) (f64_to_Z r) in
      f64_eqb r (of_Z p)
      && (if s =? 0 then p =? 0 else 0 <? p)
      && (if s =? totalSpawned then p =? 100
          else (p <? 100) && (p <=? hitRatePercent (s + 1) totalSpawned)))
    (seqZ 0 (totalSpawned + 1)).

(** The height [calculateBoardSize] keeps free for the controls. *)
Definition reservedHeight (fullscreen : bool) : Z :=
  if fullscreen then 150 else 250.

(** A grid of cells of side [c] fits the window: 12 columns within the
    width less the margins, 6 rows within the height less the controls. *)
Definition boardFits (windowWidth windowHeight : Z) (fullscreen : bool)
    (c : Z) : Prop :=
  12 * c ≤ windowWidth - 40 ∧ 6 * c ≤ windowHeight - reservedHeight fullscreen.

(** The three interval handles are installed exactly while the round
    runs. *)
Definition timers_consistent (s : State) : Prop :=
  match isGameRunning s, gameInterval s, updateInterval s, gameTimer s with
  | true, Some _, Some _, Some _ => True
  | false, None, None, None => True
  | _, _, _, _ => False
  end.

(** What the session refs satisfy at every turn of the event loop. *)
Definition session_inv (s : State) : Prop :=
  timers_consistent s
  ∧ 0 ≤ gameTimeLeft s ≤ 60
  ∧ (isGameRunning s = true → 1 ≤ gameTimeLeft s)
  ∧ 15 ≤ cellSize s ≤ 50.

(** The refs a board event does not touch. *)
Definition sessionFields (s : State)
  : Z * option positive * option positive * option positive * Z * bool
    * bool * Z :=
  (level s, gameInterval s, updateInterval s, gameTimer s, gameTimeLeft s,
   isGameRunning s, isFullscreen s, cellSize s).

(** Events of play, as opposed to the controller's buttons: the three
    timers, a click on a cell, a removal timeout. *)
Definition playEvent (ev : Event) : bool :=
  match ev with
  | EvSpawnTick _ | EvDecayTick | EvClockTick | EvClick _ | EvRemoval => true
  | _ => false
  end.

Definition isClockTick (ev : Event) : bool :=
  match ev with EvClockTick => true | _ => false end.

Definition isClick (ev : Event) : bool :=
  match ev with EvClick _ => true | _ => false end.

Definition isSpawnTick (ev : Event) : bool :=
  match ev with EvSpawnTick _ => true | _ => false end.

(** How many events of a run satisfy [p]. *)
Definition countEvents (p : Event → bool) (evs : list Event) : Z :=
  Z.of_nat (length (List.filter p evs)).

(** The fields of a cell that say where it is. *)
Definition cellIdent (c : Cell) : Z * Z * Z := (id c, row c, col c).

(** The writes of the three cell mutations. *)
Definition spawnedCell (lifetime : Z) (c : Cell) : Cell :=
  set_timeLeft lifetime (set_isActive true c).

Definition removedCell (c : Cell) : Cell :=
  set_timeLeft 0 (set_isAnimating false (set_isActive false c)).

(** The ways one turn of the event loop changes the store, the board
    array and the queue of removals: not at all; a block spawned on an
    inactive cell of the board; a click taken on an active cell of the
    board, with its removal queued; the oldest removal carried out; a
    decay pass over the board; a board rebuilt from new cells. *)
Inductive heap_change (s s' : State) : Prop :=
| hc_same :
    heap s' = heap s → gameBoard s' = gameBoard s →
    removals s' = removals s → heap_change s s'
| hc_spawn (loc : nat) (c : Cell) :
    loc ∈ gameBoard s → heap s !! loc = Some c → isActive c = false →
    heap s' = <[loc := spawnedCell (whiteDuration (level s) * 1000) c]> (heap s) →
    gameBoard s' = gameBoard s → removals s' = removals s →
    heap_change s s'
| hc_click (loc : nat) (c : Cell) :
    loc ∈ gameBoard s → heap s !! loc = Some c → isActive c = true →
    heap s' = <[loc := set_isAnimating true c]> (heap s) →
    gameBoard s' = gameBoard s → removals s' = removals s ++ [loc] →
    heap_change s s'
| hc_removal (loc : nat) (rest : list nat) :
    removals s = loc :: rest →
    heap s' = alter removedCell loc (heap s) →
    gameBoard s' = gameBoard s → removals s' = rest →
    heap_change s s'
| hc_decay :
    heap s' = foldl (λ h loc, alter decayCell loc h) (heap s) (gameBoard s) →
    gameBoard s' = gameBoard s → removals s' = removals s →
    heap_change s s'
| hc_rebuild :
    heap s' = heap s ++ freshCells →
    gameBoard s' = seq (length (heap s)) (length freshCells) →
    removals s' = removals s →
    heap_change s s'.

(** What the cells and the removal queue satisfy at every turn of the
    event loop: the board array is well formed; every pending removal
    refers to an allocated cell; an inactive cell is not animating; an
    animating cell has a removal pending; the board shows the 72
    positions of a fresh board, in order. *)
Definition cells_inv (s : State) : Prop :=
  board_wf s
  ∧ Forall (λ loc, (loc < length (heap s))%nat) (removals s)
  ∧ (∀ loc c, heap s !! loc = Some c →
              isActive c = false → isAnimating c = false)
  ∧ (∀ loc c, heap s !! loc = Some c →
              isAnimating c = true → loc ∈ removals s)
  ∧ cellIdent <$> boardCells s = cellIdent <$> freshCells.

(** The references [spawnWhiteBlock] may choose from. *)
Definition availableCells (s : State) : list nat :=
  filter (λ loc, inactiveAt (heap s) loc = true) (gameBoard s).

(** During a running round no block has more time left than the lifetime
    of the current level (the timer bar is never wider than its cell). *)
Definition timeLeft_inv (s : State) : Prop :=
  isGameRunning s = true →
  Forall (λ c, 0 ≤ timeLeft c ≤ blockLifetimeMs (level s)) (boardCells s).

(** ** The event loop with the layout listeners *)

(** The turns of the page beyond those of the game: the [resize] and
    [fullscreenchange] listeners, and the three ways a call of
    [toggleFullscreen] (from its button or from [startGame]) goes on after
    its [await]: the request was granted on the entering or on the leaving
    branch, which sets [isFullscreen] accordingly; it was rejected, which
    only logs; and, 100 ms after a grant, [calculateBoardSize].  The
    window size is what [window.innerWidth] and [window.innerHeight] read
    at that turn.  A continuation is allowed at any turn, so every
    sequence of turns the page can take is among the runs. *)
Inductive UiEvent :=
| UiGame (ev : Event)
| UiResize (windowWidth windowHeight : Z)
| UiFullscreenChange (fullscreenElement : bool) (windowWidth windowHeight : Z)
| UiToggleGranted (entering : bool)
| UiToggleRejected
| UiToggleSettled (windowWidth windowHeight : Z).

Definition uiStep (s : State) (ev : UiEvent) : State :=
  match ev with
  | UiGame ev => step s ev
  | UiResize w h => handleResize w h s
  | UiFullscreenChange b w h => handleFullscreenChange b w h s
  | UiToggleGranted entering => set_isFullscreen entering s
  | UiToggleRejected => s
  | UiToggleSettled w h => calculateBoardSize w h s
  end.

Definition uiRun (s : State) (evs : list UiEvent) : State := foldl uiStep s evs.

(** * Properties *)

(** ** Difficulty parameters *)

Lemma level_cases (level : Z) :
  1 ≤ level ≤ 5 →
  level = 1 ∨ level = 2 ∨ level = 3 ∨ level = 4 ∨ level = 5.
Proof. lia. Qed.

Lemma blockLifetimeMs_pos (level : Z) : 0 < blockLifetimeMs level.
Proof. unfold blockLifetimeMs, whiteDuration. lia. Qed.

Lemma spawnInterval_values :
  map spawnInterval [1; 2; 3; 4; 5] =
    [of_Z 2500; of_Z 1250; S754_finite false 7330077518506667 (-43);
     of_Z 625; of_Z 500].
Proof. vm_compute. reflexivity. Qed.

(** C6. For every level in 1..5: the block lifetime is
    [max(1, 6 - level) * 1000] and strictly decreases as the level grows;
    the spawn rate is [min(10, level * 2)]; the spawn interval is a finite
    double of value at least 500 that is [max(500, 5000 / spawnRate)]
    (exactly, except at level 3 where 2500/3 is not a double and the
    correctly rounded quotient is within half an ulp of it); at level 5
    the three are 1000, 10 and 500. *)
Theorem difficulty_parameters (level : Z) :
  1 ≤ level ≤ 5 →
  blockLifetimeMs level = Z.max 1 (6 - level) * 1000
  ∧ (∀ level', level < level' ≤ 5 →
       blockLifetimeMs level' < blockLifetimeMs level)
  ∧ spawnRate level = Z.min 10 (level * 2)
  ∧ (∃ q : Q,
       to_Q (spawnInterval level) = Some q
       ∧ (500 <= q)%Q
       ∧ (Qabs (q - spawnIntervalMs_exact level) <= 1 # 2 ^ 44)%Q
       ∧ (level ≠ 3 → (q == spawnIntervalMs_exact level)%Q))
  ∧ (blockLifetimeMs 5 = 1000 ∧ spawnRate 5 = 10
     ∧ spawnInterval 5 = of_Z 500).
Proof.
  intros Hl.
  split; [unfold blockLifetimeMs, whiteDuration; lia |].
  split; [intros l' Hl'; unfold blockLifetimeMs, whiteDuration; lia |].
  split; [reflexivity |].
  split; [| by vm_compute].
  destruct (level_cases level Hl) as [-> | [-> | [-> | [-> | ->]]]];
      (eexists; split; [vm_compute; reflexivity |]);
      (split; [apply Qle_bool_imp_le; vm_compute; reflexivity |]);
      (split; [apply Qle_bool_imp_le; vm_compute; reflexivity |]);
      intros Hne; try (apply Qeq_bool_eq; vm_compute; reflexivity);
      exfalso; apply Hne; reflexivity.
Qed.

Lemma difficulty_parameters_witness :
  1 ≤ 3 ≤ 5
  ∧ blockLifetimeMs 3 = 3000 ∧ blockLifetimeMs 4 < blockLifetimeMs 3
  ∧ spawnRate 3 = 6.
Proof.
  assert (H : 1 ≤ 3 ≤ 5) by lia.
  destruct (difficulty_parameters 3 H) as (Hlife & Hdec & Hrate & _).
  split; [exact H |].
  split; [rewrite Hlife; reflexivity |].
  split; [apply Hdec; lia |].
  rewrite Hrate; reflexivity.
Defined.

(** ** Hit rate *)

Lemma f64_eqb_eq (x y : f64) : f64_eqb x y = true → x = y.
Proof.
  destruct x as [a | a | | s m e], y as [b | b | | s' m' e'];
    simpl; try discriminate; try reflexivity.
  - intros H. apply Bool.eqb_prop in H. congruence.
  - intros H. apply Bool.eqb_prop in H. congruence.
  - intros H. apply andb_prop in H as [H He].
    apply andb_prop in H as [Hs Hm].
    apply Bool.eqb_prop in Hs. apply Pos.eqb_eq in Hm.
    apply Z.eqb_eq in He. congruence.
Qed.

Lemma hitRate_agrees_upto_elim (maxScore maxSpawned score totalSpawned : Z) :
  hitRate_agrees_upto maxScore maxSpawned = true →
  0 ≤ score ≤ maxScore → 1 ≤ totalSpawned ≤ maxSpawned →
  hitRate_agrees score totalSpawned = true.
Proof.
  unfold hitRate_agrees_upto. intros H Hs Ht.
  rewrite forallb_forall in H.
  assert (Hin : totalSpawned ∈ seqZ 1 maxSpawned)
    by (apply elem_of_seqZ; lia).
  apply list_elem_of_In, H in Hin.
  rewrite forallb_forall in Hin.
  apply Hin, list_elem_of_In, elem_of_seqZ. lia.
Qed.

Lemma hitRate_agrees_300_120 : hitRate_agrees_upto 300 120 = true.
Proof. vm_cast_no_check (eq_refl true). Qed.

Lemma hitRate_no_spawn (score : Z) : hitRate score 0 = of_Z 0.
Proof. reflexivity. Qed.

(** At 23 hits out of 40 the quotient 0.575 is not a double; the product
    of its nearest double with 100 is the double just below 57.5, which
    rounds to 57, while 57.5 rounds to 58. *)
Lemma hitRate_23_40 :
  mul (div (of_Z 23) (of_Z 40)) (of_Z 100)
    = S754_finite false 8092405580431359 (-47)
  ∧ hitRate 23 40 = of_Z 57
  ∧ hitRate_exact 23 40 = 58.
Proof. vm_compute. repeat split. Qed.

(** C7, as stated, fails: the code's hit rate is not, for every score and
    positive totalSpawned, the rounding of the exact quotient. *)
Lemma hitRate_not_exact_round :
  ¬ (∀ score totalSpawned : Z,
       0 ≤ score → 0 < totalSpawned →
       hitRate score totalSpawned
         = of_Z (hitRate_exact score totalSpawned)).
Proof.
  intros H. specialize (H 23 40 ltac:(lia) ltac:(lia)).
  vm_compute in H. discriminate H.
Qed.

(** C7 (amended). The hit rate is 0 when nothing was spawned, whatever
    the score.  Otherwise it is [Math.round] of the double product
    [(score / totalSpawned) * 100]; for 0 <= score <= 300 and
    0 < totalSpawned <= 120 that is the rounding (halves upwards) of the
    exact [score / totalSpawned * 100] at every input, ties included,
    except at the ties where [score / totalSpawned] is one of 23/40,
    41/40, 51/40, 87/40, 97/40, 169/40, 179/40, 189/40, 199/40: there the
    double product lies just below the half and the result is one less.
    15 hits out of 20 give 75. *)
Theorem hitRate_spec (score totalSpawned : Z) :
  (totalSpawned = 0 → hitRate score totalSpawned = of_Z 0)
  ∧ (0 ≤ score ≤ 300 → 0 < totalSpawned ≤ 120 →
       (isLowTie score totalSpawned = false →
          hitRate score totalSpawned
            = of_Z (hitRate_exact score totalSpawned))
       ∧ (isLowTie score totalSpawned = true →
            isTie score totalSpawned = true
            ∧ hitRate score totalSpawned
                = of_Z (hitRate_exact score totalSpawned - 1))
       ∧ (isTie score totalSpawned = false →
            hitRate score totalSpawned
              = of_Z (hitRate_exact score totalSpawned)))
  ∧ hitRate 15 20 = of_Z 75.
Proof.
  split; [intros ->; apply hitRate_no_spawn |].
  split; [| by vm_compute].
  intros Hs Ht.
  pose proof (hitRate_agrees_upto_elim 300 120 score totalSpawned
                hitRate_agrees_300_120 Hs ltac:(lia)) as H.
  unfold hitRate_agrees in H.
  destruct (isLowTie score totalSpawned).
  - apply andb_prop in H as [Htie H]. apply f64_eqb_eq in H.
    split; [discriminate |]. split; [done |].
    rewrite Htie. discriminate.
  - apply f64_eqb_eq in H.
    split; [done |]. split; [discriminate | done].
Qed.

Lemma hitRate_spec_witness :
  ((0 ≤ 1 ≤ 300 ∧ 0 < 8 ≤ 120
    ∧ isTie 1 8 = true ∧ isLowTie 1 8 = false)
   ∧ hitRate 1 8 = of_Z 13)
  ∧ ((0 ≤ 23 ≤ 300 ∧ 0 < 40 ≤ 120 ∧ isLowTie 23 40 = true)
     ∧ hitRate 23 40 = of_Z 57)
  ∧ ((0 ≤ 15 ≤ 300 ∧ 0 < 20 ≤ 120 ∧ isTie 15 20 = false)
     ∧ hitRate 15 20 = of_Z 75).
Proof.
  assert (Hs1 : 0 ≤ 1 ≤ 300) by lia. assert (Ht1 : 0 < 8 ≤ 120) by lia.
  assert (Hs2 : 0 ≤ 23 ≤ 300) by lia. assert (Ht2 : 0 < 40 ≤ 120) by lia.
  assert (Hs3 : 0 ≤ 15 ≤ 300) by lia. assert (Ht3 : 0 < 20 ≤ 120) by lia.
  assert (Hn1 : isLowTie 1 8 = false) by reflexivity.
  assert (Hl2 : isLowTie 23 40 = true) by reflexivity.
  assert (Hn3 : isTie 15 20 = false) by reflexivity.
  split; [| split].
  - split; [repeat split; (lia || reflexivity) |].
    destruct (hitRate_spec 1 8) as (_ & H & _).
    destruct (H Hs1 Ht1) as (Hx & _ & _). exact (Hx Hn1).
  - split; [repeat split; (lia || reflexivity) |].
    destruct (hitRate_spec 23 40) as (_ & H & _).
    destruct (H Hs2 Ht2) as (_ & Hx & _). exact (proj2 (Hx Hl2)).
  - split; [repeat split; (lia || reflexivity) |].
    destruct (hitRate_spec 15 20) as (_ & H & _).
    destruct (H Hs3 Ht3) as (_ & _ & Hx). exact (Hx Hn3).
Defined.

(** ** The board array and the store *)

Lemma boardCells_ext (s s' : State) :
  heap s = heap s' → gameBoard s = gameBoard s' →
  boardCells s = boardCells s'.
Proof. unfold boardCells. intros -> ->. reflexivity. Qed.

Lemma elem_of_boardCells (s : State) (c : Cell) :
  c ∈ boardCells s ↔ ∃ loc, loc ∈ gameBoard s ∧ heap s !! loc = Some c.
Proof. unfold boardCells. apply list_elem_of_omap. Qed.

Lemma omap_lookup_app_seq {A : Type} (l h : list A) :
  omap (λ loc, (h ++ l) !! loc) (seq (length h) (length l)) = l.
Proof.
  revert h. induction l as [| x l IH]; intros h; [reflexivity |].
  simpl. rewrite list_lookup_middle by reflexivity.
  f_equal.
  replace (h ++ x :: l) with ((h ++ [x]) ++ l)
    by (rewrite <- app_assoc; reflexivity).
  replace (S (length h)) with (length (h ++ [x]))
    by (rewrite length_app; simpl; lia).
  apply IH.
Qed.

Lemma heap_initBoard (s : State) : heap (initBoard s) = heap s ++ freshCells.
Proof. reflexivity. Qed.

Lemma gameBoard_initBoard (s : State) :
  gameBoard (initBoard s) = seq (length (heap s)) (length freshCells).
Proof. reflexivity. Qed.

Lemma boardCells_initBoard (s : State) : boardCells (initBoard s) = freshCells.
Proof.
  unfold boardCells. rewrite heap_initBoard, gameBoard_initBoard.
  apply omap_lookup_app_seq.
Qed.

Lemma length_freshCells : length freshCells = 72%nat.
Proof. reflexivity. Qed.

Lemma freshCells_blank :
  Forall (λ c, isActive c = false ∧ timeLeft c = 0 ∧ isAnimating c = false)
    freshCells.
Proof. apply (bool_decide_unpack _). vm_compute. exact I. Qed.

Lemma freshCells_ids :
  map id freshCells = seqZ 0 72.
Proof. reflexivity. Qed.

Lemma initBoard_wf (s : State) : board_wf (initBoard s).
Proof.
  unfold board_wf. rewrite heap_initBoard, gameBoard_initBoard. split.
  - apply NoDup_seq.
  - apply list.Forall_forall. intros loc Hloc.
    apply elem_of_seq in Hloc. rewrite length_app. lia.
Qed.

(** ** stopGame, resetGame *)

Lemma stopGame_eq (s : State) :
  stopGame s =
    mkState (level s) (score s) (totalSpawned s) (heap s) (gameBoard s)
      None None None (gameTimeLeft s) false (isFullscreen s) (cellSize s)
      (removals s).
Proof.
  destruct s as [? ? ? ? ? [?|] [?|] [?|] ? ? ? ? ?]; reflexivity.
Qed.

(** C10. [stopGame] sets [isGameRunning] to false and the three timer
    handles to null, and changes nothing else: the store of cells and the
    board array (hence every cell's [isActive], [timeLeft], [isAnimating]),
    the score, [totalSpawned] and the remaining round time stay as they
    were.  This holds from every state, in particular from a running one. *)
Theorem stopGame_frame (s : State) :
  stopGame s =
    mkState (level s) (score s) (totalSpawned s) (heap s) (gameBoard s)
      None None None (gameTimeLeft s) false (isFullscreen s) (cellSize s)
      (removals s)
  ∧ boardCells (stopGame s) = boardCells s
  ∧ score (stopGame s) = score s
  ∧ totalSpawned (stopGame s) = totalSpawned s
  ∧ gameTimeLeft (stopGame s) = gameTimeLeft s
  ∧ isGameRunning (stopGame s) = false
  ∧ gameInterval (stopGame s) = None
  ∧ updateInterval (stopGame s) = None
  ∧ gameTimer (stopGame s) = None.
Proof.
  split; [apply stopGame_eq |].
  rewrite stopGame_eq. repeat split.
Qed.

Lemma resetGame_eq (s : State) :
  resetGame s =
    mkState (level s) 0 0 (heap s ++ freshCells)
      (seq (length (heap s)) (length freshCells))
      None None None 60 false (isFullscreen s) (cellSize s) (removals s).
Proof. unfold resetGame. rewrite stopGame_eq. reflexivity. Qed.

Lemma view_resetGame (s : State) :
  view (resetGame s) =
    mkView (level s) 0 0 freshCells None None None 60 false
      (isFullscreen s) (cellSize s).
Proof.
  unfold view. rewrite resetGame_eq.
  cbn [level score totalSpawned gameInterval updateInterval gameTimer
       gameTimeLeft isGameRunning isFullscreen cellSize].
  f_equal. apply omap_lookup_app_seq.
Qed.

(** C9. [resetGame] is idempotent on what can be observed: after a second
    reset the refs and the contents of the board are exactly those after
    the first, namely 72 cells, all inactive with [timeLeft] 0 and not
    animating, score 0, [totalSpawned] 0, 60 seconds of round time, not
    running, and the three timer handles null; the pending removal
    callbacks are untouched by either. *)
Theorem resetGame_idempotent (s : State) :
  view (resetGame (resetGame s)) = view (resetGame s)
  ∧ removals (resetGame (resetGame s)) = removals (resetGame s)
  ∧ view (resetGame s) =
      mkView (level s) 0 0 freshCells None None None 60 false
        (isFullscreen s) (cellSize s)
  ∧ length freshCells = 72%nat
  ∧ Forall (λ c, isActive c = false ∧ timeLeft c = 0 ∧ isAnimating c = false)
      freshCells.
Proof.
  split; [rewrite !view_resetGame, !resetGame_eq; reflexivity |].
  split; [rewrite !resetGame_eq; reflexivity |].
  split; [apply view_resetGame |].
  split; [apply length_freshCells | apply freshCells_blank].
Qed.

(** ** spawnWhiteBlock *)

Lemma alter_insert_lookup {A : Type} (f : A → A) (l : list A) (i : nat) (x : A) :
  l !! i = Some x → alter f i l = <[i := f x]> l.
Proof.
  intros Hx. apply list_eq. intros j.
  destruct (decide (i = j)) as [<- | Hne].
  - rewrite list_lookup_alter_eq, Hx.
    rewrite list_lookup_insert_eq by (eapply lookup_lt_Some; eauto).
    reflexivity.
  - rewrite list_lookup_alter_ne, list_lookup_insert_ne by done. reflexivity.
Qed.

Lemma inactiveAt_true (h : list Cell) (loc : nat) :
  inactiveAt h loc = true ↔ ∃ c, h !! loc = Some c ∧ isActive c = false.
Proof.
  unfold inactiveAt. destruct (h !! loc) as [c |]; split.
  - intros H. exists c. split; [done |]. by destruct (isActive c).
  - intros (c' & [= <-] & ->). reflexivity.
  - discriminate.
  - intros (c' & [=] & _).
Qed.

(** C8. [spawnWhiteBlock] never raises.  On a board without an inactive
    cell it returns the state as it was.  Otherwise it picks one inactive
    cell of the board, makes it active with
    [timeLeft = blockLifetimeMs(level)], adds exactly 1 to [totalSpawned],
    and leaves every other cell, the score and all other refs unchanged. *)
Theorem spawnWhiteBlock_spec (rnd : nat) (s : State) :
  is_Some (spawnWhiteBlock rnd s)
  ∧ ((∀ c, c ∈ boardCells s → isActive c = true) →
       spawnWhiteBlock rnd s = Some s)
  ∧ ((∃ c, c ∈ boardCells s ∧ isActive c = false) →
       ∃ (loc : nat) (c : Cell) (s' : State),
         spawnWhiteBlock rnd s = Some s'
         ∧ loc ∈ gameBoard s ∧ heap s !! loc = Some c ∧ isActive c = false
         ∧ heap s' !! loc
             = Some (mkCell (id c) (row c) (col c) true
                       (blockLifetimeMs (level s)) (isAnimating c))
         ∧ (∀ loc', loc' ≠ loc → heap s' !! loc' = heap s !! loc')
         ∧ totalSpawned s' = totalSpawned s + 1
         ∧ score s' = score s
         ∧ s' = set_totalSpawned (totalSpawned s + 1)
                  (set_heap (heap s') s)).
Proof.
  unfold spawnWhiteBlock.
  set (av := filter (λ loc, inactiveAt (heap s) loc = true) (gameBoard s)).
  assert (Hav : ∀ loc, loc ∈ av ↔
            loc ∈ gameBoard s ∧ ∃ c, heap s !! loc = Some c ∧ isActive c = false).
  { intros loc. unfold av. rewrite list_elem_of_filter, inactiveAt_true. tauto. }
  destruct (Nat.eqb_spec (length av) 0) as [Hlen | Hlen].
  - apply nil_length_inv in Hlen.
    split; [by eexists |]. split; [done |].
    intros (c & Hc & Hina). apply elem_of_boardCells in Hc as (loc & Hloc & Hh).
    assert (Hin : loc ∈ av) by (apply Hav; eauto).
    rewrite Hlen in Hin. by apply not_elem_of_nil in Hin.
  - assert (Hidx : (rnd mod length av < length av)%nat)
      by (apply Nat.mod_upper_bound; done).
    apply lookup_lt_is_Some in Hidx as [loc Hloc]. rewrite Hloc.
    assert (Hin : loc ∈ av) by (eapply list_elem_of_lookup_2; eauto).
    apply Hav in Hin as (Hboard & c & Hc & Hina).
    split; [by eexists |]. split.
    + intros Hall. specialize (Hall c).
      rewrite elem_of_boardCells in Hall.
      rewrite Hall in Hina by eauto. discriminate.
    + intros _. eexists loc, c, _. split; [reflexivity |].
      rewrite (alter_insert_lookup _ _ _ _ Hc).
      cbn [heap set_heap set_totalSpawned totalSpawned score].
      repeat split; try done.
      * rewrite list_lookup_insert_eq by (eapply lookup_lt_Some; eauto).
        reflexivity.
      * intros loc' Hne. by rewrite list_lookup_insert_ne.
Qed.

Lemma spawnWhiteBlock_spec_witness :
  (Forall (λ c, isActive c = true) (boardCells fullBoard)
   ∧ spawnWhiteBlock 3 fullBoard = Some fullBoard)
  ∧ (mkCell 6 0 6 false 0 false ∈ boardCells firstSpawn
     ∧ ∃ s', spawnWhiteBlock 3 firstSpawn = Some s'
         ∧ totalSpawned s' = totalSpawned firstSpawn + 1
         ∧ score s' = score firstSpawn).
Proof.
  assert (Hfull : Forall (λ c, isActive c = true) (boardCells fullBoard))
    by (apply (bool_decide_unpack _); vm_compute; exact I).
  assert (Hin : mkCell 6 0 6 false 0 false ∈ boardCells firstSpawn)
    by (apply (bool_decide_unpack _); vm_compute; exact I).
  split.
  - split; [exact Hfull |].
    destruct (spawnWhiteBlock_spec 3 fullBoard) as (_ & Hnoop & _).
    apply Hnoop. apply list.Forall_forall. exact Hfull.
  - split; [exact Hin |].
    destruct (spawnWhiteBlock_spec 3 firstSpawn) as (_ & _ & Hspawn).
    destruct Hspawn as (loc & c & s' & Hs' & _ & _ & _ & _ & _ & Ht & Hsc & _).
    + exists (mkCell 6 0 6 false 0 false). split; [exact Hin | reflexivity].
    + exists s'. split; [exact Hs' |]. split; [exact Ht | exact Hsc].
Defined.

(** ** updateGame *)

Lemma foldl_alter_lookup (f : Cell → Cell) (locs : list nat) (h : list Cell)
    (j : nat) :
  NoDup locs →
  foldl (λ h loc, alter f loc h) h locs !! j
    = if decide (j ∈ locs) then f <$> h !! j else h !! j.
Proof.
  intros Hnd. revert h.
  induction Hnd as [| x l Hx Hnd IH]; intros h; cbn [foldl].
  - rewrite decide_False by apply not_elem_of_nil. reflexivity.
  - rewrite IH. destruct (decide (j ∈ l)) as [Hj | Hj].
    + assert (x ≠ j) by (intros ->; done).
      rewrite list_lookup_alter_ne by done.
      rewrite decide_True by (by apply list_elem_of_further). reflexivity.
    + destruct (decide (x = j)) as [<- | Hne].
      * rewrite list_lookup_alter_eq.
        rewrite decide_True by apply list_elem_of_here. reflexivity.
      * rewrite list_lookup_alter_ne by done.
        rewrite decide_False; [reflexivity |].
        intros [-> | ?]%elem_of_cons; done.
Qed.

Lemma updateGame_lookup (s : State) (loc : nat) :
  NoDup (gameBoard s) → loc ∈ gameBoard s →
  heap (updateGame s) !! loc = decayCell <$> heap s !! loc.
Proof.
  intros Hnd Hin. unfold updateGame. cbn [heap set_heap].
  rewrite foldl_alter_lookup by done. by rewrite decide_True.
Qed.

Lemma omap_ext_elem_of {A B : Type} (f g : A → option B) (l : list A) :
  (∀ x, x ∈ l → f x = g x) → omap f l = omap g l.
Proof.
  induction l as [| x l IH]; intros H; [reflexivity |].
  cbn [omap list_omap]. rewrite (H x) by apply list_elem_of_here.
  rewrite IH; [reflexivity |].
  intros y Hy. apply H. by apply list_elem_of_further.
Qed.

Lemma boardCells_updateGame (s : State) :
  NoDup (gameBoard s) →
  boardCells (updateGame s) = decayCell <$> boardCells s.
Proof.
  intros Hnd. unfold boardCells. rewrite list_fmap_omap.
  change (gameBoard (updateGame s)) with (gameBoard s).
  apply omap_ext_elem_of; intros loc Hloc.
  by apply updateGame_lookup.
Qed.

Lemma decayCell_cases (c : Cell) :
  id (decayCell c) = id c ∧ row (decayCell c) = row c
  ∧ col (decayCell c) = col c ∧ isAnimating (decayCell c) = isAnimating c
  ∧ (isActive c = true → isAnimating c = false → 0 < timeLeft c - 100 →
       isActive (decayCell c) = true
       ∧ timeLeft (decayCell c) = timeLeft c - 100)
  ∧ (isActive c = true → isAnimating c = false → timeLeft c - 100 ≤ 0 →
       isActive (decayCell c) = false ∧ timeLeft (decayCell c) = 0)
  ∧ (isActive c = false ∨ isAnimating c = true → decayCell c = c).
Proof.
  unfold decayCell. destruct c as [i r k a t n]. cbn.
  destruct a, n; cbn; destruct (Z.leb_spec (t - 100) 0); cbn;
    repeat split; try done; try lia; intros [? | ?]; done.
Qed.

(** C4. On a board whose references are distinct, one [updateGame] tick
    takes exactly 100 off the [timeLeft] of every cell that is active and
    not animating and, when the result is not positive, makes that cell
    inactive with [timeLeft] 0; a cell that is inactive or animating is
    left as it is; the score, [totalSpawned], the board array and every
    other ref are unchanged. *)
Theorem updateGame_spec (s : State) :
  board_wf s →
  gameBoard (updateGame s) = gameBoard s
  ∧ score (updateGame s) = score s
  ∧ totalSpawned (updateGame s) = totalSpawned s
  ∧ updateGame s = set_heap (heap (updateGame s)) s
  ∧ ∀ loc c, loc ∈ gameBoard s → heap s !! loc = Some c →
      ∃ c', heap (updateGame s) !! loc = Some c'
        ∧ id c' = id c ∧ row c' = row c ∧ col c' = col c
        ∧ isAnimating c' = isAnimating c
        ∧ (isActive c = true → isAnimating c = false →
             0 < timeLeft c - 100 →
             isActive c' = true ∧ timeLeft c' = timeLeft c - 100)
        ∧ (isActive c = true → isAnimating c = false →
             timeLeft c - 100 ≤ 0 →
             isActive c' = false ∧ timeLeft c' = 0)
        ∧ (isActive c = false ∨ isAnimating c = true → c' = c).
Proof.
  intros [Hnd _]. do 4 (split; [reflexivity |]).
  intros loc c Hloc Hc. exists (decayCell c). split.
  - rewrite updateGame_lookup, Hc by done. reflexivity.
  - apply decayCell_cases.
Qed.

(** ** The invariant on cells *)

Lemma heap_keeps_ok_refl (h : list Cell) : heap_keeps_ok h h.
Proof. intros loc c Hc. eauto. Qed.

Lemma heap_keeps_ok_trans (h1 h2 h3 : list Cell) :
  heap_keeps_ok h1 h2 → heap_keeps_ok h2 h3 → heap_keeps_ok h1 h3.
Proof.
  intros H12 H23 loc c3 Hc3.
  destruct (H23 loc c3 Hc3) as (c2 & Hc2 & Hok2).
  destruct (H12 loc c2 Hc2) as (c1 & Hc1 & Hok1). eauto.
Qed.

Lemma heap_keeps_ok_alter (f : Cell → Cell) (loc : nat) (h : list Cell) :
  (∀ c, cell_ok c → cell_ok (f c)) → heap_keeps_ok h (alter f loc h).
Proof.
  intros Hf j c'. rewrite list_lookup_alter.
  destruct (decide (loc = j)) as [-> | Hne].
  - destruct (h !! j) as [c |]; [| discriminate].
    intros [= <-]. eauto.
  - eauto.
Qed.

Lemma heap_keeps_ok_foldl (f : Cell → Cell) (locs : list nat) (h : list Cell) :
  (∀ c, cell_ok c → cell_ok (f c)) →
  heap_keeps_ok h (foldl (λ h loc, alter f loc h) h locs).
Proof.
  intros Hf. revert h. induction locs as [| x l IH]; intros h; cbn [foldl].
  - apply heap_keeps_ok_refl.
  - eapply heap_keeps_ok_trans; [| apply IH].
    by apply heap_keeps_ok_alter.
Qed.

Lemma board_inv_keeps (s s' : State) :
  gameBoard s' = gameBoard s → heap_keeps_ok (heap s) (heap s') →
  board_inv s → board_inv s'.
Proof.
  unfold board_inv. rewrite !list.Forall_forall.
  intros Hb Hh Hinv c' Hc'.
  apply elem_of_boardCells in Hc' as (loc & Hloc & Hc').
  destruct (Hh loc c' Hc') as (c & Hc & Hok).
  apply Hok, Hinv, elem_of_boardCells. exists loc. by rewrite <- Hb.
Qed.

Lemma freshCells_ok : Forall cell_ok freshCells.
Proof.
  pose proof freshCells_blank as H. rewrite list.Forall_forall in H.
  apply list.Forall_forall. intros c Hc.
  destruct (H c Hc) as (Ha & Ht & _). unfold cell_ok. lia.
Qed.

Lemma decayCell_ok (c : Cell) : cell_ok c → cell_ok (decayCell c).
Proof.
  unfold cell_ok, decayCell. destruct c as [i r k a t n]. cbn.
  destruct a, n; cbn; try done;
    destruct (Z.leb_spec (t - 100) 0); cbn; intros [? ?];
    (split; [intros [? ?]; try done; lia | lia]).
Qed.

Lemma spawned_ok (level : Z) (c : Cell) :
  cell_ok (set_timeLeft (whiteDuration level * 1000) (set_isActive true c)).
Proof.
  pose proof (blockLifetimeMs_pos level) as H. unfold blockLifetimeMs in H.
  unfold cell_ok. cbn. split; [intros [? _]; done | lia].
Qed.

Lemma removed_ok (c : Cell) :
  cell_ok (set_timeLeft 0 (set_isAnimating false (set_isActive false c))).
Proof. unfold cell_ok. cbn. lia. Qed.

Lemma animating_ok (c : Cell) : cell_ok c → cell_ok (set_isAnimating true c).
Proof. unfold cell_ok. cbn. done. Qed.

Lemma board_inv_initBoard (s : State) : board_inv (initBoard s).
Proof. unfold board_inv. rewrite boardCells_initBoard. apply freshCells_ok. Qed.

Lemma board_inv_spawnWhiteBlock (rnd : nat) (s s' : State) :
  spawnWhiteBlock rnd s = Some s' → board_inv s → board_inv s'.
Proof.
  unfold spawnWhiteBlock.
  destruct (length _ =? 0)%nat; [by intros [= <-] |].
  destruct (_ !! _) as [loc |]; [| discriminate].
  intros [= <-]. apply board_inv_keeps; [reflexivity |].
  apply heap_keeps_ok_alter. intros c _. apply spawned_ok.
Qed.

Lemma board_inv_updateGame (s : State) : board_inv s → board_inv (updateGame s).
Proof.
  apply board_inv_keeps; [reflexivity |].
  apply heap_keeps_ok_foldl, decayCell_ok.
Qed.

Lemma board_inv_clickCell (cell : nat) (s : State) :
  board_inv s → board_inv (clickCell cell s).
Proof.
  unfold clickCell. destruct (heap s !! cell) as [c |]; [| done].
  destruct (_ || _); [done |].
  apply board_inv_keeps; [reflexivity |].
  apply heap_keeps_ok_alter, animating_ok.
Qed.

Lemma board_inv_removeBlock (cell : nat) (s : State) :
  board_inv s → board_inv (removeBlock cell s).
Proof.
  apply board_inv_keeps; [reflexivity |].
  apply heap_keeps_ok_alter. intros c _. apply removed_ok.
Qed.

Lemma board_inv_fireRemoval (s : State) : board_inv s → board_inv (fireRemoval s).
Proof.
  unfold fireRemoval. destruct (removals s) as [| cell rest]; [done |].
  intros H. by apply board_inv_removeBlock.
Qed.

Lemma board_inv_stopGame (s : State) : board_inv s → board_inv (stopGame s).
Proof. unfold board_inv. rewrite stopGame_eq. done. Qed.

Lemma startGame_eq (h1 h2 h3 : positive) (w h : Z) (s : State) :
  startGame h1 h2 h3 w h s =
    mkState (level s) 0 0 (heap s ++ freshCells)
      (seq (length (heap s)) (length freshCells))
      (Some h1) (Some h2) (Some h3) 60 true (isFullscreen s)
      (if isFullscreen s
       then Z.max (Z.min (Z.min ((w - 40) / 12) ((h - 150) / 6)) 50) 15
       else cellSize s)
      (removals s).
Proof.
  unfold startGame. rewrite stopGame_eq.
  destruct (isFullscreen s) eqn:Hfs;
    cbn [isFullscreen set_isGameRunning set_gameTimeLeft set_totalSpawned
         set_score initBoard set_gameBoard set_heap negb];
    unfold calculateBoardSize; cbn -[freshCells Z.div Z.min Z.max seq];
    rewrite ?Hfs; reflexivity.
Qed.

Lemma boardCells_startGame (h1 h2 h3 : positive) (w h : Z) (s : State) :
  boardCells (startGame h1 h2 h3 w h s) = freshCells.
Proof. rewrite startGame_eq. apply omap_lookup_app_seq. Qed.

Lemma boardCells_resetGame (s : State) : boardCells (resetGame s) = freshCells.
Proof. rewrite resetGame_eq. apply omap_lookup_app_seq. Qed.

Lemma board_inv_startGame (h1 h2 h3 : positive) (w h : Z) (s : State) :
  board_inv (startGame h1 h2 h3 w h s).
Proof. unfold board_inv. rewrite boardCells_startGame. apply freshCells_ok. Qed.

Lemma board_inv_resetGame (s : State) : board_inv (resetGame s).
Proof. unfold board_inv. rewrite boardCells_resetGame. apply freshCells_ok. Qed.

Lemma board_inv_step (s : State) (ev : Event) : board_inv s → board_inv (step s ev).
Proof.
  intros Hinv. destruct ev as [rnd | | | i | | h1 h2 h3 w h | | | n h1 h2 h3 w h];
    cbn [step].
  - destruct (gameInterval s); [| done]. unfold spawnTick.
    destruct (isGameRunning s); [| done].
    destruct (spawnWhiteBlock rnd s) as [s' |] eqn:Hs; [| done].
    eapply board_inv_spawnWhiteBlock; eauto.
  - destruct (updateInterval s); [| done]. by apply board_inv_updateGame.
  - destruct (gameTimer s); [| done]. unfold clockTick.
    destruct (_ <=? _); [| done].
    unfold endGame, board_inv. rewrite stopGame_eq. done.
  - destruct (gameBoard s !! i); [| done]. by apply board_inv_clickCell.
  - by apply board_inv_fireRemoval.
  - apply board_inv_startGame.
  - by apply board_inv_stopGame.
  - apply board_inv_resetGame.
  - unfold changeLevel. destruct (isGameRunning _); [| done].
    apply board_inv_startGame.
Qed.

(** C5. The invariant "no cell of the board is inactive with
    [timeLeft > 0], and no [timeLeft] is negative" holds after [initBoard]
    and is preserved by spawning, by a decay tick, by a click and by its
    deferred removal, by start, stop and reset, and by every turn of the
    event loop. *)
Theorem board_invariant_preserved :
  (∀ s0, board_inv (initBoard s0))
  ∧ (∀ s, board_inv s →
       (∀ rnd s', spawnWhiteBlock rnd s = Some s' → board_inv s')
       ∧ board_inv (updateGame s)
       ∧ (∀ cell, board_inv (clickCell cell s))
       ∧ (∀ cell, board_inv (removeBlock cell s))
       ∧ (∀ h1 h2 h3 w h, board_inv (startGame h1 h2 h3 w h s))
       ∧ board_inv (stopGame s)
       ∧ board_inv (resetGame s)
       ∧ (∀ ev, board_inv (step s ev))).
Proof.
  split; [apply board_inv_initBoard |].
  intros s Hinv.
  split; [intros rnd s' Hs; eapply board_inv_spawnWhiteBlock; eauto |].
  split; [by apply board_inv_updateGame |].
  split; [intros cell; by apply board_inv_clickCell |].
  split; [intros cell; by apply board_inv_removeBlock |].
  split; [intros; apply board_inv_startGame |].
  split; [by apply board_inv_stopGame |].
  split; [apply board_inv_resetGame |].
  intros ev. by apply board_inv_step.
Qed.

(** ** Concrete sessions *)

Lemma firstSpawn_cell5 :
  gameBoard firstSpawn !! 5%nat = Some 77%nat
  ∧ heap firstSpawn !! 77%nat = Some (mkCell 5 0 5 true 5000 false)
  ∧ score firstSpawn = 0 ∧ totalSpawned firstSpawn = 1
  ∧ isGameRunning firstSpawn = true.
Proof. vm_compute. repeat split. Qed.

Lemma firstSpawn_wf : board_wf firstSpawn.
Proof. apply (bool_decide_unpack _). vm_compute. exact I. Qed.

Lemma updateGame_spec_witness :
  board_wf firstSpawn
  ∧ ∃ c', heap (updateGame firstSpawn) !! 77%nat = Some c'
      ∧ isActive c' = true ∧ timeLeft c' = 4900.
Proof.
  assert (Hwf : board_wf firstSpawn)
    by (apply (bool_decide_unpack _); vm_compute; exact I).
  split; [exact Hwf |].
  destruct (updateGame_spec firstSpawn Hwf) as (_ & _ & _ & _ & Hcells).
  destruct (Hcells 77%nat (mkCell 5 0 5 true 5000 false))
    as (c' & Hc' & _ & _ & _ & _ & Hdec & _).
  - apply (bool_decide_unpack _). vm_compute. exact I.
  - vm_compute. reflexivity.
  - exists c'. split; [exact Hc' |].
    apply Hdec; [reflexivity | reflexivity | cbn; lia].
Defined.

Lemma board_invariant_preserved_witness :
  board_inv firstSpawn ∧ board_inv (updateGame firstSpawn)
  ∧ board_inv (clickCell 77 firstSpawn).
Proof.
  assert (Hinv : board_inv firstSpawn)
    by (apply (bool_decide_unpack _); vm_compute; exact I).
  destruct board_invariant_preserved as [_ Hstep].
  destruct (Hstep firstSpawn Hinv) as (_ & Hupd & Hclick & _).
  split; [exact Hinv |]. split; [exact Hupd | exact (Hclick 77%nat)].
Defined.

(** ** Scenario A: a block that is never clicked *)

Lemma filter_all {A : Type} (P : A → Prop) `{∀ x, Decision (P x)} (l : list A) :
  (∀ x, x ∈ l → P x) → filter P l = l.
Proof.
  induction l as [| x l IH]; intros Hall; [reflexivity |].
  rewrite filter_cons_True by (apply Hall, list_elem_of_here).
  f_equal. apply IH. intros y Hy. by apply Hall, list_elem_of_further.
Qed.

Lemma inactiveAt_fresh (h : list Cell) (loc : nat) :
  loc ∈ seq (length h) (length freshCells) →
  inactiveAt (h ++ freshCells) loc = true.
Proof.
  intros Hloc%elem_of_seq. apply inactiveAt_true.
  assert (Hi : (loc - length h < length freshCells)%nat) by lia.
  apply lookup_lt_is_Some in Hi as [c Hc].
  exists c. split.
  - rewrite lookup_app_r by lia. exact Hc.
  - pose proof freshCells_blank as Hb. rewrite list.Forall_forall in Hb.
    apply (Hb c). eapply list_elem_of_lookup_2; eauto.
Qed.

(** The first spawn on a rebuilt board, for a draw [rnd < 72]: every cell
    is available, so the draw is the position of the cell. *)
Lemma spawnWhiteBlock_initBoard (rnd : nat) (s : State) :
  (rnd < 72)%nat →
  spawnWhiteBlock rnd (initBoard s) =
    Some (set_totalSpawned (totalSpawned s + 1)
            (set_heap
               (heap s ++
                  alter (λ c, set_timeLeft (whiteDuration (level s) * 1000)
                                (set_isActive true c)) rnd freshCells)
               (initBoard s))).
Proof.
  intros Hrnd. unfold spawnWhiteBlock.
  rewrite heap_initBoard, gameBoard_initBoard.
  rewrite filter_all by (intros loc Hloc; by apply inactiveAt_fresh).
  rewrite length_seq, length_freshCells.
  change (72 =? 0)%nat with false. cbv iota.
  rewrite Nat.mod_small by done.
  rewrite lookup_seq_lt by done.
  rewrite alter_app_r. reflexivity.
Qed.

Lemma boardCells_app_seq (s : State) (h l : list Cell) :
  heap s = h ++ l → gameBoard s = seq (length h) (length l) →
  boardCells s = l.
Proof.
  intros Hh Hb. unfold boardCells. rewrite Hh, Hb.
  apply omap_lookup_app_seq.
Qed.

Lemma gameBoard_iter_updateGame (n : nat) (s : State) :
  gameBoard (Nat.iter n updateGame s) = gameBoard s.
Proof. induction n as [| n IH]; [reflexivity |]. exact IH. Qed.

Lemma counters_iter_updateGame (n : nat) (s : State) :
  score (Nat.iter n updateGame s) = score s
  ∧ totalSpawned (Nat.iter n updateGame s) = totalSpawned s.
Proof. induction n as [| n IH]; [done |]. exact IH. Qed.

Lemma boardCells_iter_updateGame (n : nat) (s : State) :
  NoDup (gameBoard s) →
  boardCells (Nat.iter n updateGame s) = Nat.iter n (fmap decayCell) (boardCells s).
Proof.
  intros Hnd. induction n as [| n IH]; [reflexivity |].
  rewrite !Nat.iter_succ.
  rewrite boardCells_updateGame by (by rewrite gameBoard_iter_updateGame).
  by rewrite IH.
Qed.

Lemma lookup_iter_fmap {A : Type} (f : A → A) (n : nat) (l : list A) (i : nat) :
  Nat.iter n (fmap f) l !! i = Nat.iter n f <$> l !! i.
Proof.
  induction n as [| n IH].
  - change (Nat.iter 0 (fmap f) l) with l. by destruct (l !! i).
  - rewrite !Nat.iter_succ, list_lookup_fmap, IH.
    by destruct (l !! i).
Qed.

(** An unclicked block of lifetime 5000 ms after [n] ticks. *)
Lemma decay_5000 (i r k : Z) (n : nat) :
  Nat.iter n decayCell (mkCell i r k true 5000 false) =
    if (n <? 50)%nat then mkCell i r k true (5000 - 100 * Z.of_nat n) false
    else mkCell i r k false 0 false.
Proof.
  induction n as [| n IH]; [reflexivity |].
  rewrite Nat.iter_succ, IH.
  destruct (Nat.ltb_spec n 50) as [Hn | Hn];
    destruct (Nat.ltb_spec (S n) 50) as [Hn' | Hn']; try lia;
    [| | reflexivity];
    unfold decayCell; cbn -[Z.of_nat Z.sub Z.mul Z.leb];
    destruct (Z.leb_spec (5000 - 100 * Z.of_nat n - 100) 0) as [Hz | Hz];
    try lia.
  - unfold set_timeLeft. cbn [id row col isActive isAnimating].
    f_equal. lia.
  - reflexivity.
Qed.

(** What the board shows at position 5 once a block was spawned there at
    level 1 and [n] decay ticks have passed. *)
Lemma scenarioA_after (n : nat) (s : State) :
  level s = 1 →
  ∃ s1, spawnWhiteBlock 5 (initBoard s) = Some s1
    ∧ totalSpawned s1 = totalSpawned s + 1
    ∧ score s1 = score s
    ∧ boardCells (Nat.iter n updateGame s1) !! 5%nat
        = Some (Nat.iter n decayCell (mkCell 5 0 5 true 5000 false))
    ∧ totalSpawned (Nat.iter n updateGame s1) = totalSpawned s1
    ∧ score (Nat.iter n updateGame s1) = score s1.
Proof.
  intros Hlevel. eexists. split; [apply spawnWhiteBlock_initBoard; lia |].
  split; [reflexivity |]. split; [reflexivity |].
  split; [| split; apply counters_iter_updateGame].
  rewrite boardCells_iter_updateGame by apply NoDup_seq.
  rewrite lookup_iter_fmap.
  erewrite boardCells_app_seq;
    [| reflexivity
     | cbn [gameBoard set_totalSpawned set_heap]; rewrite gameBoard_initBoard;
       by rewrite length_alter].
  rewrite Hlevel. reflexivity.
Qed.

(** C3, as stated, fails: five decay ticks after the spawn the block at
    cell 5 is still active, with 4500 ms left. *)
Lemma scenarioA_five_ticks_fails :
  ¬ (∀ s : State, level s = 1 →
       ∃ s1, spawnWhiteBlock 5 (initBoard s) = Some s1
         ∧ ∃ c, boardCells (Nat.iter 5 updateGame s1) !! 5%nat = Some c
             ∧ isActive c = false ∧ timeLeft c = 0).
Proof.
  intros H.
  destruct (H initialState eq_refl) as (s1 & Hs1 & c & Hc & Hact & _).
  destruct (scenarioA_after 5 initialState eq_refl) as (s1' & Hs1' & _ & _ & Hc' & _).
  rewrite Hs1 in Hs1'. injection Hs1' as <-.
  rewrite Hc in Hc'. injection Hc' as ->.
  vm_compute in Hact. discriminate Hact.
Qed.

(** C3 (amended). Scenario A: at level 1, once a block is spawned at cell 5
    (lifetime 5000 ms) and no click occurs, the cell is still active with
    [5000 - 100 n] ms left after [n < 50] decay ticks, and after exactly
    50 decay ticks of 100 ms it is inactive with [timeLeft] 0; the decay
    ticks change neither [totalSpawned] nor the score. *)
Theorem scenarioA_fifty_ticks (s : State) :
  level s = 1 →
  ∃ s1, spawnWhiteBlock 5 (initBoard s) = Some s1
    ∧ boardCells s1 !! 5%nat = Some (mkCell 5 0 5 true 5000 false)
    ∧ (∀ n, (n < 50)%nat →
         boardCells (Nat.iter n updateGame s1) !! 5%nat
           = Some (mkCell 5 0 5 true (5000 - 100 * Z.of_nat n) false))
    ∧ boardCells (Nat.iter 50 updateGame s1) !! 5%nat
        = Some (mkCell 5 0 5 false 0 false)
    ∧ (∀ n, totalSpawned (Nat.iter n updateGame s1) = totalSpawned s1
            ∧ score (Nat.iter n updateGame s1) = score s1).
Proof.
  intros Hlevel.
  destruct (scenarioA_after 0 s Hlevel) as (s1 & Hs1 & _ & _ & H0 & _).
  exists s1. split; [exact Hs1 |]. split; [exact H0 |].
  assert (Hn : ∀ n, boardCells (Nat.iter n updateGame s1) !! 5%nat
                 = Some (Nat.iter n decayCell (mkCell 5 0 5 true 5000 false))).
  { intros n.
    destruct (scenarioA_after n s Hlevel) as (s1' & Hs1' & _ & _ & Hc & _).
    rewrite Hs1 in Hs1'. by injection Hs1' as <-. }
  split; [| split].
  - intros n Hlt. rewrite Hn, decay_5000.
    destruct (Nat.ltb_spec n 50); [reflexivity | lia].
  - rewrite Hn, decay_5000. reflexivity.
  - intros n. split; apply counters_iter_updateGame.
Qed.

Lemma scenarioA_fifty_ticks_witness :
  level initialState = 1
  ∧ ∃ s1, spawnWhiteBlock 5 (initBoard initialState) = Some s1
      ∧ boardCells (Nat.iter 50 updateGame s1) !! 5%nat
          = Some (mkCell 5 0 5 false 0 false).
Proof.
  split; [reflexivity |].
  destruct (scenarioA_fifty_ticks initialState eq_refl)
    as (s1 & Hs1 & _ & _ & H50 & _).
  exists s1. split; [exact Hs1 | exact H50].
Defined.

(** ** clickCell *)

Lemma clickCell_noop (cell : nat) (c : Cell) (s : State) :
  heap s !! cell = Some c →
  isGameRunning s = false ∨ isActive c = false →
  clickCell cell s = s.
Proof.
  intros Hc H. unfold clickCell. rewrite Hc.
  destruct H as [-> | ->]; [by rewrite orb_true_r | reflexivity].
Qed.

(** A click on an active cell of a running round counts, whether or not
    the cell is already animating. *)
Lemma clickCell_hit (cell : nat) (c : Cell) (s : State) :
  heap s !! cell = Some c →
  isGameRunning s = true → isActive c = true →
  clickCell cell s =
    set_removals (removals s ++ [cell])
      (set_score (score s + 1)
         (set_heap (<[cell := set_isAnimating true c]> (heap s)) s)).
Proof.
  intros Hc Hrun Hact. unfold clickCell. rewrite Hc, Hrun, Hact.
  cbn [negb orb]. by rewrite (alter_insert_lookup _ _ _ _ Hc).
Qed.

(** The deferred completion of a click. *)
Lemma removeBlock_lookup (cell : nat) (c : Cell) (s : State) :
  heap s !! cell = Some c →
  heap (removeBlock cell s) !! cell
    = Some (mkCell (id c) (row c) (col c) false 0 false)
  ∧ (∀ loc, loc ≠ cell → heap (removeBlock cell s) !! loc = heap s !! loc)
  ∧ removeBlock cell s = set_heap (heap (removeBlock cell s)) s.
Proof.
  intros Hc. unfold removeBlock. cbn [heap set_heap]. repeat split.
  - rewrite list_lookup_alter_eq, Hc. reflexivity.
  - intros loc Hne. by rewrite list_lookup_alter_ne.
Qed.

(** C1, where the code departs from it.  The round is running and cell 5
    is active and animating (its removal is still pending); a second click
    on it is not a no-op: the score goes from 1 to 2 and a second removal
    is scheduled. *)
Theorem clickCell_animating_scores_again :
  isGameRunning firstClick = true
  ∧ gameBoard firstClick !! 5%nat = Some 77%nat
  ∧ heap firstClick !! 77%nat = Some (mkCell 5 0 5 true 5000 true)
  ∧ score firstClick = 1
  ∧ removals firstClick = [77%nat]
  ∧ clickCell 77 firstClick ≠ firstClick
  ∧ score (clickCell 77 firstClick) = 2
  ∧ removals (clickCell 77 firstClick) = [77%nat; 77%nat].
Proof.
  assert (Hc : heap firstClick !! 77%nat = Some (mkCell 5 0 5 true 5000 true))
    by (vm_compute; reflexivity).
  assert (Hs : score firstClick = 1) by (vm_compute; reflexivity).
  assert (Hr : removals firstClick = [77%nat]) by (vm_compute; reflexivity).
  assert (Hrun : isGameRunning firstClick = true) by (vm_compute; reflexivity).
  assert (Hb : gameBoard firstClick !! 5%nat = Some 77%nat)
    by (vm_compute; reflexivity).
  rewrite (clickCell_hit 77 _ firstClick Hc Hrun eq_refl).
  cbn [score removals set_removals set_score]. rewrite Hs, Hr.
  do 5 (split; [assumption || reflexivity |]).
  split; [| split; reflexivity].
  intros Heq. apply (f_equal score) in Heq.
  cbn [score set_removals set_score] in Heq. lia.
Qed.

(** C2, where the code departs from it.  From a fresh start (score 0,
    [totalSpawned] 0, every cell inactive): one spawner tick, then two
    clicks on the spawned block before its removal fires.  The score is 2
    and [totalSpawned] is 1. *)
Theorem double_click_score_exceeds_totalSpawned :
  (score started = 0 ∧ totalSpawned started = 0
   ∧ Forall (λ c, isActive c = false) (boardCells started))
  ∧ let s := run started [EvSpawnTick 5; EvClick 5; EvClick 5] in
    score s = 2 ∧ totalSpawned s = 1 ∧ ¬ (score s ≤ totalSpawned s).
Proof.
  split.
  - split; [reflexivity |]. split; [reflexivity |].
    unfold started. rewrite boardCells_startGame.
    pose proof freshCells_blank as H. rewrite list.Forall_forall in H.
    apply list.Forall_forall. intros c Hc. apply (H c Hc).
  - assert (Hs : score (run started [EvSpawnTick 5; EvClick 5; EvClick 5]) = 2)
      by (vm_compute; reflexivity).
    assert (Ht : totalSpawned (run started [EvSpawnTick 5; EvClick 5; EvClick 5]) = 1)
      by (vm_compute; reflexivity).
    cbv zeta. rewrite Hs, Ht. repeat split. lia.
Qed.

(** ** Well-formedness of the board is an invariant of the event loop *)

Lemma board_wf_keeps (s s' : State) :
  gameBoard s' = gameBoard s → length (heap s') = length (heap s) →
  board_wf s → board_wf s'.
Proof. unfold board_wf. intros -> ->. done. Qed.

Lemma board_wf_fresh (s : State) (h : list Cell) :
  heap s = h ++ freshCells →
  gameBoard s = seq (length h) (length freshCells) →
  board_wf s.
Proof.
  intros Hh Hb. unfold board_wf. rewrite Hh, Hb. split.
  - apply NoDup_seq.
  - apply list.Forall_forall. intros loc Hloc%elem_of_seq.
    rewrite length_app. lia.
Qed.

Lemma length_foldl_alter (f : Cell → Cell) (locs : list nat) (h : list Cell) :
  length (foldl (λ h loc, alter f loc h) h locs) = length h.
Proof.
  revert h. induction locs as [| x l IH]; intros h; cbn [foldl]; [done |].
  by rewrite IH, length_alter.
Qed.

Lemma board_wf_spawnWhiteBlock (rnd : nat) (s s' : State) :
  spawnWhiteBlock rnd s = Some s' → board_wf s → board_wf s'.
Proof.
  unfold spawnWhiteBlock.
  destruct (length _ =? 0)%nat; [by intros [= <-] |].
  destruct (_ !! _) as [loc |]; [| discriminate].
  intros [= <-]. apply board_wf_keeps; [reflexivity |].
  cbn [heap set_heap set_totalSpawned]. apply length_alter.
Qed.

Lemma board_wf_clickCell (cell : nat) (s : State) :
  board_wf s → board_wf (clickCell cell s).
Proof.
  unfold clickCell. destruct (heap s !! cell) as [c |]; [| done].
  destruct (_ || _); [done |].
  apply board_wf_keeps; [reflexivity |].
  cbn [heap set_heap set_score set_removals]. apply length_alter.
Qed.

Lemma board_wf_fireRemoval (s : State) : board_wf s → board_wf (fireRemoval s).
Proof.
  unfold fireRemoval. destruct (removals s) as [| cell rest]; [done |].
  apply board_wf_keeps; [reflexivity |].
  unfold removeBlock. cbn [heap set_heap set_removals]. apply length_alter.
Qed.

Lemma board_wf_startGame (h1 h2 h3 : positive) (w h : Z) (s : State) :
  board_wf (startGame h1 h2 h3 w h s).
Proof. eapply board_wf_fresh; rewrite startGame_eq; reflexivity. Qed.

Lemma board_wf_resetGame (s : State) : board_wf (resetGame s).
Proof. eapply board_wf_fresh; rewrite resetGame_eq; reflexivity. Qed.

Lemma board_wf_step (s : State) (ev : Event) : board_wf s → board_wf (step s ev).
Proof.
  intros Hwf. destruct ev as [rnd | | | i | | h1 h2 h3 w h | | | n h1 h2 h3 w h];
    cbn [step].
  - destruct (gameInterval s); [| done]. unfold spawnTick.
    destruct (isGameRunning s); [| done].
    destruct (spawnWhiteBlock rnd s) as [s' |] eqn:Hs; [| done].
    eapply board_wf_spawnWhiteBlock; eauto.
  - destruct (updateInterval s); [| done].
    revert Hwf. apply board_wf_keeps; [reflexivity |].
    apply length_foldl_alter.
  - destruct (gameTimer s); [| done]. unfold clockTick.
    destruct (_ <=? _); [| done].
    unfold endGame, board_wf. rewrite stopGame_eq. done.
  - destruct (gameBoard s !! i); [| done]. by apply board_wf_clickCell.
  - by apply board_wf_fireRemoval.
  - apply board_wf_startGame.
  - unfold board_wf. rewrite stopGame_eq. done.
  - apply board_wf_resetGame.
  - unfold changeLevel. destruct (isGameRunning _); [| done].
    apply board_wf_startGame.
Qed.

Lemma board_wf_mounted (w h : Z) : board_wf (mounted w h).
Proof. apply (board_wf_fresh _ []); reflexivity. Qed.

Lemma board_wf_run (s : State) (evs : list Event) :
  board_wf s → board_wf (run s evs).
Proof.
  revert s. induction evs as [| ev evs IH]; intros s Hwf; [done |].
  apply IH. by apply board_wf_step.
Qed.

(** ** Score against spawns when no animating cell is clicked

    A second click on a block whose removal is pending is the only way
    for the score to overtake [totalSpawned]: along every run of
    the event loop in which no click lands on an animating cell, the
    score plus the number of blocks still waiting to be clicked never
    exceeds [totalSpawned]. *)

Lemma live_range (c : Cell) : 0 ≤ live c ≤ 1.
Proof. unfold live. destruct (_ && _); lia. Qed.

Lemma liveCount_nonneg (h : list Cell) (board : list nat) : 0 ≤ liveCount h board.
Proof.
  induction board as [| x l IH]; cbn [liveCount foldr]; [lia |].
  fold (liveCount h l). unfold liveAt.
  destruct (h !! x) as [c |]; cbn [from_option];
    [pose proof (live_range c) |]; lia.
Qed.

Lemma liveCount_alter_notin (f : Cell → Cell) (loc : nat) (h : list Cell)
    (board : list nat) :
  loc ∉ board → liveCount (alter f loc h) board = liveCount h board.
Proof.
  induction board as [| x l IH]; intros Hnot; [reflexivity |].
  apply not_elem_of_cons in Hnot as [Hne Hnot].
  cbn [liveCount foldr]. fold (liveCount (alter f loc h) l) (liveCount h l).
  rewrite IH by done. unfold liveAt.
  by rewrite list_lookup_alter_ne.
Qed.

Lemma liveCount_alter_in (f : Cell → Cell) (loc : nat) (c : Cell)
    (h : list Cell) (board : list nat) :
  NoDup board → loc ∈ board → h !! loc = Some c →
  liveCount (alter f loc h) board = liveCount h board - live c + live (f c).
Proof.
  intros Hnd. induction Hnd as [| x l Hx Hnd IH]; intros Hin Hc.
  - by apply not_elem_of_nil in Hin.
  - cbn [liveCount foldr]. fold (liveCount (alter f loc h) l) (liveCount h l).
    destruct (decide (x = loc)) as [-> | Hne].
    + rewrite liveCount_alter_notin by done. unfold liveAt.
      rewrite list_lookup_alter_eq, Hc. cbn [fmap option_fmap option_map from_option].
      lia.
    + apply elem_of_cons in Hin as [-> | Hin]; [done |].
      rewrite IH by done. unfold liveAt.
      rewrite list_lookup_alter_ne by done. lia.
Qed.

Lemma liveCount_mono (h h' : list Cell) (board : list nat) :
  (∀ loc, liveAt h' loc ≤ liveAt h loc) →
  liveCount h' board ≤ liveCount h board.
Proof.
  intros Hle. induction board as [| x l IH]; cbn [liveCount foldr]; [lia |].
  fold (liveCount h' l) (liveCount h l). specialize (Hle x). lia.
Qed.

Lemma liveAt_alter_le (f : Cell → Cell) (loc j : nat) (h : list Cell) :
  (∀ c, live (f c) ≤ live c) →
  liveAt (alter f loc h) j ≤ liveAt h j.
Proof.
  intros Hf. unfold liveAt. rewrite list_lookup_alter.
  destruct (decide (loc = j)) as [-> | Hne]; [| lia].
  destruct (h !! j) as [c |]; cbn [fmap option_fmap option_map from_option];
    [apply Hf | lia].
Qed.

Lemma liveAt_foldl_alter_le (f : Cell → Cell) (locs : list nat) (j : nat)
    (h : list Cell) :
  (∀ c, live (f c) ≤ live c) →
  liveAt (foldl (λ h loc, alter f loc h) h locs) j ≤ liveAt h j.
Proof.
  intros Hf. revert h. induction locs as [| x l IH]; intros h; cbn [foldl]; [lia |].
  etransitivity; [apply IH |]. by apply liveAt_alter_le.
Qed.

Lemma live_decayCell (c : Cell) : live (decayCell c) ≤ live c.
Proof.
  unfold live, decayCell. destruct c as [i r k a t n]. cbn.
  destruct a, n; cbn; try lia. destruct (_ <=? _); cbn; lia.
Qed.

Lemma liveCount_boardCells (h : list Cell) (board : list nat) :
  liveCount h board = foldr (λ c n, live c + n) 0 (omap (λ loc, h !! loc) board).
Proof.
  induction board as [| x l IH]; [reflexivity |].
  cbn [liveCount foldr omap list_omap]. fold (liveCount h l). rewrite IH.
  unfold liveAt. destruct (h !! x); reflexivity.
Qed.

Lemma liveCount_fresh (h : list Cell) :
  liveCount (h ++ freshCells) (seq (length h) (length freshCells)) = 0.
Proof. rewrite liveCount_boardCells, omap_lookup_app_seq. reflexivity. Qed.

Lemma score_inv_startGame (h1 h2 h3 : positive) (w h : Z) (s : State) :
  score_inv (startGame h1 h2 h3 w h s).
Proof.
  unfold score_inv, liveBlocks. rewrite startGame_eq.
  cbn [gameBoard heap score totalSpawned]. rewrite liveCount_fresh.
  split; [apply NoDup_seq | lia].
Qed.

Lemma score_inv_resetGame (s : State) : score_inv (resetGame s).
Proof.
  unfold score_inv, liveBlocks. rewrite resetGame_eq.
  cbn [gameBoard heap score totalSpawned]. rewrite liveCount_fresh.
  split; [apply NoDup_seq | lia].
Qed.

Lemma score_inv_spawnWhiteBlock (rnd : nat) (s s' : State) :
  spawnWhiteBlock rnd s = Some s' → score_inv s → score_inv s'.
Proof.
  unfold spawnWhiteBlock.
  destruct (length _ =? 0)%nat; [by intros [= <-] |].
  destruct (_ !! _) as [loc |] eqn:Hloc; [| discriminate].
  intros [= <-] [Hnd Hle].
  apply list_elem_of_lookup_2, list_elem_of_filter in Hloc as [Hina Hin].
  apply inactiveAt_true in Hina as (c & Hc & _).
  split; [exact Hnd |]. unfold liveBlocks in *.
  cbn [heap gameBoard score totalSpawned set_heap set_totalSpawned].
  rewrite (liveCount_alter_in _ _ c) by done.
  pose proof (live_range c).
  pose proof (live_range (set_timeLeft (whiteDuration (level s) * 1000)
                            (set_isActive true c))).
  lia.
Qed.

Lemma score_inv_updateGame (s : State) : score_inv s → score_inv (updateGame s).
Proof.
  intros [Hnd Hle]. split; [exact Hnd |]. unfold liveBlocks in *.
  cbn [updateGame heap gameBoard score totalSpawned set_heap].
  etransitivity; [| exact Hle]. apply Z.add_le_mono_l, liveCount_mono.
  intros loc. apply liveAt_foldl_alter_le, live_decayCell.
Qed.

Lemma score_inv_fireRemoval (s : State) : score_inv s → score_inv (fireRemoval s).
Proof.
  unfold fireRemoval. destruct (removals s) as [| cell rest]; [done |].
  intros [Hnd Hle]. split; [exact Hnd |]. unfold liveBlocks in *.
  cbn [removeBlock heap gameBoard score totalSpawned set_heap set_removals].
  etransitivity; [| exact Hle]. apply Z.add_le_mono_l, liveCount_mono.
  intros loc. apply liveAt_alter_le. intros c.
  pose proof (live_range c). unfold live at 1. cbn. lia.
Qed.

Lemma score_inv_clickCell (i cell : nat) (s : State) :
  gameBoard s !! i = Some cell →
  guarded s (EvClick i) →
  score_inv s → score_inv (clickCell cell s).
Proof.
  intros Hi Hg [Hnd Hle]. unfold clickCell.
  destruct (heap s !! cell) as [c |] eqn:Hc; [| done].
  destruct (isActive c) eqn:Hact; [| done].
  destruct (isGameRunning s); [| done]. cbn [negb orb].
  specialize (Hg cell c Hi Hc).
  split; [exact Hnd |]. unfold liveBlocks in *.
  cbn [heap gameBoard score totalSpawned set_heap set_score set_removals].
  rewrite (liveCount_alter_in _ _ c)
    by (try done; eapply list_elem_of_lookup_2; eauto).
  unfold live. cbn [isActive isAnimating set_isAnimating].
  rewrite Hact, Hg. cbn. lia.
Qed.

Lemma score_inv_step (s : State) (ev : Event) :
  guarded s ev → score_inv s → score_inv (step s ev).
Proof.
  intros Hg Hinv.
  destruct ev as [rnd | | | i | | h1 h2 h3 w h | | | n h1 h2 h3 w h];
    cbn [step].
  - destruct (gameInterval s); [| done]. unfold spawnTick.
    destruct (isGameRunning s); [| done].
    destruct (spawnWhiteBlock rnd s) as [s' |] eqn:Hs; [| done].
    eapply score_inv_spawnWhiteBlock; eauto.
  - destruct (updateInterval s); [| done]. by apply score_inv_updateGame.
  - destruct (gameTimer s); [| done]. unfold clockTick.
    destruct (_ <=? _); [| done].
    unfold endGame, score_inv, liveBlocks. rewrite stopGame_eq. done.
  - destruct (gameBoard s !! i) as [cell |] eqn:Hi; [| done].
    by eapply score_inv_clickCell.
  - by apply score_inv_fireRemoval.
  - apply score_inv_startGame.
  - unfold score_inv, liveBlocks. rewrite stopGame_eq. done.
  - apply score_inv_resetGame.
  - unfold changeLevel. destruct (isGameRunning _); [| done].
    apply score_inv_startGame.
Qed.

Lemma score_inv_run (s : State) (evs : list Event) :
  guarded_run s evs → score_inv s → score_inv (run s evs).
Proof.
  revert s. induction evs as [| ev evs IH]; intros s Hg Hinv; [done |].
  destruct Hg as [Hg Hgs]. apply IH; [done |]. by apply score_inv_step.
Qed.

(** From a fresh start, along every interleaving of timer ticks, clicks,
    removals and controller calls in which no animating cell is clicked,
    [score <= totalSpawned]. *)
Theorem score_le_totalSpawned_without_double_click
    (h1 h2 h3 : positive) (w h : Z) (s0 : State) (evs : list Event) :
  guarded_run (startGame h1 h2 h3 w h s0) evs →
  score (run (startGame h1 h2 h3 w h s0) evs)
    ≤ totalSpawned (run (startGame h1 h2 h3 w h s0) evs).
Proof.
  intros Hg.
  destruct (score_inv_run _ evs Hg (score_inv_startGame h1 h2 h3 w h s0))
    as [_ Hle].
  pose proof (liveCount_nonneg
                (heap (run (startGame h1 h2 h3 w h s0) evs))
                (gameBoard (run (startGame h1 h2 h3 w h s0) evs))) as Hn.
  unfold liveBlocks in Hle. lia.
Qed.

(** * Further properties *)

(** ** Layout *)

Lemma cellSize_calculateBoardSize (w h : Z) (s : State) :
  cellSize (calculateBoardSize w h s)
    = Z.max (Z.min (Z.min ((w - 40) / 12)
                          ((h - reservedHeight (isFullscreen s)) / 6)) 50) 15.
Proof. unfold calculateBoardSize, reservedHeight. by destruct (isFullscreen s). Qed.

(** X1. [calculateBoardSize] changes nothing but [cellSize], and the size it
    sets is the largest side between 15 and 50 pixels for which the 12 x 6
    grid fits the window, or 15 when not even that fits: it lies in
    [15, 50], the grid fits unless the size is the minimum 15, and no
    other side in [15, 50] that fits is larger. *)
Theorem calculateBoardSize_largest_fit (w h : Z) (s : State) :
  let c := cellSize (calculateBoardSize w h s) in
  calculateBoardSize w h s = set_cellSize c s
  ∧ 15 ≤ c ≤ 50
  ∧ (c = 15 ∨ boardFits w h (isFullscreen s) c)
  ∧ (∀ c', 15 ≤ c' ≤ 50 → boardFits w h (isFullscreen s) c' → c' ≤ c)
  ∧ (boardFits w h (isFullscreen s) 15 → boardFits w h (isFullscreen s) c).
Proof.
  cbv zeta. split; [reflexivity |].
  rewrite cellSize_calculateBoardSize. unfold boardFits.
  set (r := reservedHeight (isFullscreen s)).
  repeat split; try intros; Z.div_mod_to_equations; lia.
Qed.

(** X2. The cell size never shrinks when the window grows, and for the same
    window it is at least as large in fullscreen as outside it. *)
Theorem calculateBoardSize_monotone (w h w' h' : Z) (s : State) :
  w ≤ w' → h ≤ h' →
  cellSize (calculateBoardSize w h s) ≤ cellSize (calculateBoardSize w' h' s)
  ∧ cellSize (calculateBoardSize w h (set_isFullscreen false s))
      ≤ cellSize (calculateBoardSize w h (set_isFullscreen true s)).
Proof.
  intros Hw Hh. rewrite !cellSize_calculateBoardSize.
  cbn [isFullscreen set_isFullscreen reservedHeight].
  set (r := reservedHeight (isFullscreen s)).
  split; Z.div_mod_to_equations; lia.
Qed.

Lemma calculateBoardSize_monotone_witness :
  1024 ≤ 1280 ∧ 600 ≤ 720
  ∧ cellSize (calculateBoardSize 1024 600 initialState)
      ≤ cellSize (calculateBoardSize 1280 720 initialState).
Proof.
  assert (Hw : 1024 ≤ 1280) by lia. assert (Hh : 600 ≤ 720) by lia.
  split; [exact Hw |]. split; [exact Hh |].
  exact (proj1 (calculateBoardSize_monotone 1024 600 1280 720 initialState Hw Hh)).
Defined.

(** ** Clock display *)

Lemma forallb_seqZ_elim (f : Z → bool) (m n k : Z) :
  forallb f (seqZ m n) = true → m ≤ k < m + n → f k = true.
Proof.
  intros H Hk. rewrite forallb_forall in H.
  apply H, list_elem_of_In, elem_of_seqZ. exact Hk.
Qed.

Lemma formatTime_ok_below_600 : forallb Clock.formatTime_ok (seqZ 0 600) = true.
Proof. vm_cast_no_check (eq_refl true). Qed.

Lemma formatTime_below_600 (t : Z) :
  0 ≤ t ≤ 599 →
  Clock.formatTime t = Clock.display t
  ∧ String.length (Clock.formatTime t) = 4%nat
  ∧ Clock.parseTime (Clock.formatTime t) = Some t.
Proof.
  intros Ht.
  pose proof (forallb_seqZ_elim _ 0 600 t formatTime_ok_below_600
                ltac:(lia)) as H.
  unfold Clock.formatTime_ok in H. apply andb_prop in H as [Hd Hp].
  apply String.eqb_eq in Hd. split; [exact Hd |].
  split; [rewrite Hd; reflexivity |].
  destruct (Clock.parseTime (Clock.formatTime t)) as [t' |]; [| discriminate].
  apply Z.eqb_eq in Hp. congruence.
Qed.

(** X3. For a time from 0 up to 9:59, [formatTime] prints exactly four
    characters [M:SS]: the minute digit, a colon and the two digits of the
    seconds; reading the text back gives the time, so two different
    times never print the same. *)
Theorem formatTime_display (t : Z) :
  0 ≤ t ≤ 599 →
  Clock.formatTime t = Clock.display t
  ∧ String.length (Clock.formatTime t) = 4%nat
  ∧ Clock.parseTime (Clock.formatTime t) = Some t
  ∧ (∀ t', 0 ≤ t' ≤ 599 → Clock.formatTime t' = Clock.formatTime t → t' = t).
Proof.
  intros Ht. destruct (formatTime_below_600 t Ht) as (Hd & Hlen & Hp).
  split; [exact Hd |]. split; [exact Hlen |]. split; [exact Hp |].
  intros t' Ht' Heq. destruct (formatTime_below_600 t' Ht') as (_ & _ & Hp').
  rewrite Heq, Hp in Hp'. congruence.
Qed.

Lemma formatTime_display_witness :
  0 ≤ 59 ≤ 599 ∧ Clock.parseTime (Clock.formatTime 59) = Some 59.
Proof.
  assert (H : 0 ≤ 59 ≤ 599) by lia.
  split; [exact H |].
  destruct (formatTime_display 59 H) as (_ & _ & Hp & _). exact Hp.
Defined.

(** ** Hit rate as a percentage *)

Lemma hitRate_table_120 : forallb hitRate_row_ok (seqZ 1 120) = true.
Proof. vm_cast_no_check (eq_refl true). Qed.

Lemma hitRate_row (score totalSpawned : Z) :
  0 ≤ score ≤ totalSpawned → 0 < totalSpawned ≤ 120 →
  hitRate score totalSpawned = of_Z (hitRatePercent score totalSpawned)
  ∧ (score = 0 → hitRatePercent score totalSpawned = 0)
  ∧ (score ≠ 0 → 0 < hitRatePercent score totalSpawned)
  ∧ (score = totalSpawned → hitRatePercent score totalSpawned = 100)
  ∧ (score ≠ totalSpawned →
       hitRatePercent score totalSpawned < 100
       ∧ hitRatePercent score totalSpawned
           ≤ hitRatePercent (score + 1) totalSpawned).
Proof.
  intros Hs Ht.
  pose proof (forallb_seqZ_elim _ 1 120 totalSpawned hitRate_table_120
                ltac:(lia)) as Hrow.
  unfold hitRate_row_ok in Hrow.
  pose proof (forallb_seqZ_elim _ 0 (totalSpawned + 1) score Hrow
                ltac:(lia)) as H.
  cbv zeta in H.
  change (hitRatePercent score totalSpawned)
    with (default (-1) (f64_to_Z (hitRate score totalSpawned))).
  set (p := default (-1) (f64_to_Z (hitRate score totalSpawned))) in *.
  apply andb_prop in H as [H H3]. apply andb_prop in H as [H1 H2].
  apply f64_eqb_eq in H1. split; [exact H1 |].
  destruct (Z.eqb_spec score 0) as [E0 | N0];
    destruct (Z.eqb_spec score totalSpawned) as [Et | Nt];
    rewrite ?andb_true_iff, ?Z.eqb_eq, ?Z.ltb_lt, ?Z.leb_le in H2, H3;
    repeat split; intros; lia.
Qed.

(** X4. With at most 120 blocks spawned and a score that does not exceed
    them, the hit rate the page prints is a whole number from 0 to 100;
    it is 0 only with no hit, 100 only when every block was hit, and one
    more hit never lowers it. *)
Theorem hitRate_percentage (score totalSpawned : Z) :
  0 ≤ score ≤ totalSpawned → 0 < totalSpawned ≤ 120 →
  hitRate score totalSpawned = of_Z (hitRatePercent score totalSpawned)
  ∧ 0 ≤ hitRatePercent score totalSpawned ≤ 100
  ∧ (hitRatePercent score totalSpawned = 0 ↔ score = 0)
  ∧ (hitRatePercent score totalSpawned = 100 ↔ score = totalSpawned)
  ∧ (∀ score', score ≤ score' ≤ totalSpawned →
       hitRatePercent score totalSpawned
         ≤ hitRatePercent score' totalSpawned).
Proof.
  intros Hs Ht.
  destruct (hitRate_row score totalSpawned Hs Ht) as (He & H0 & Hp & H100 & Hlt).
  split; [exact He |].
  split.
  { destruct (decide (score = 0)) as [E0 | N0];
      destruct (decide (score = totalSpawned)) as [Et | Nt];
      try specialize (H0 E0); try specialize (Hp N0);
      try specialize (H100 Et); try specialize (Hlt Nt); lia. }
  split.
  { split; [| exact H0]. intros Hz.
    destruct (decide (score = 0)) as [E0 | N0]; [exact E0 |].
    specialize (Hp N0). lia. }
  split.
  { split; [| exact H100]. intros Hz.
    destruct (decide (score = totalSpawned)) as [Et | Nt]; [exact Et |].
    specialize (Hlt Nt). lia. }
  assert (Hmono : ∀ n : nat, score + Z.of_nat n ≤ totalSpawned →
            hitRatePercent score totalSpawned
              ≤ hitRatePercent (score + Z.of_nat n) totalSpawned).
  { induction n as [| n IH]; intros Hn.
    - replace (score + Z.of_nat 0) with score by lia. lia.
    - destruct (hitRate_row (score + Z.of_nat n) totalSpawned
                  ltac:(lia) Ht) as (_ & _ & _ & _ & Hstep).
      specialize (Hstep ltac:(lia)). specialize (IH ltac:(lia)).
      replace (score + Z.of_nat (S n)) with (score + Z.of_nat n + 1) by lia.
      lia. }
  intros score' [Hle Hle'].
  specialize (Hmono (Z.to_nat (score' - score))).
  replace (score + Z.of_nat (Z.to_nat (score' - score))) with score'
    in Hmono by lia.
  apply Hmono. lia.
Qed.

Lemma hitRate_percentage_witness :
  (0 ≤ 15 ≤ 20 ∧ 0 < 20 ≤ 120)
  ∧ hitRate 15 20 = of_Z (hitRatePercent 15 20)
  ∧ 0 ≤ hitRatePercent 15 20 ≤ 100.
Proof.
  assert (Hs : 0 ≤ 15 ≤ 20) by lia. assert (Ht : 0 < 20 ≤ 120) by lia.
  split; [auto |].
  destruct (hitRate_percentage 15 20 Hs Ht) as (He & Hb & _).
  split; [exact He | exact Hb].
Defined.

(** ** The session refs along the event loop *)

Lemma sessionFields_spawnWhiteBlock (rnd : nat) (s s' : State) :
  spawnWhiteBlock rnd s = Some s' → sessionFields s' = sessionFields s.
Proof.
  unfold spawnWhiteBlock.
  destruct (length _ =? 0)%nat; [by intros [= <-] |].
  destruct (_ !! _) as [loc |]; [| discriminate]. by intros [= <-].
Qed.

Lemma sessionFields_clickCell (cell : nat) (s : State) :
  sessionFields (clickCell cell s) = sessionFields s.
Proof.
  unfold clickCell. destruct (heap s !! cell) as [c |]; [| done].
  by destruct (_ || _).
Qed.

Lemma sessionFields_fireRemoval (s : State) :
  sessionFields (fireRemoval s) = sessionFields s.
Proof. unfold fireRemoval. by destruct (removals s). Qed.

(** A spawner tick, a decay tick, a click and a removal leave the level,
    the timers, the clock, the running flag and the layout alone. *)
Lemma sessionFields_board_event (s : State) (ev : Event) :
  playEvent ev = true → isClockTick ev = false →
  sessionFields (step s ev) = sessionFields s.
Proof.
  destruct ev; try discriminate; intros _ _; cbn [step].
  - destruct (gameInterval s); [| done]. unfold spawnTick.
    destruct (isGameRunning s); [| done].
    destruct (spawnWhiteBlock rnd s) as [s' |] eqn:Hs; [| done].
    by eapply sessionFields_spawnWhiteBlock.
  - by destruct (updateInterval s).
  - destruct (gameBoard s !! i); [| done]. apply sessionFields_clickCell.
  - apply sessionFields_fireRemoval.
Qed.

Lemma session_inv_fields (s s' : State) :
  sessionFields s' = sessionFields s → session_inv s → session_inv s'.
Proof.
  unfold sessionFields, session_inv, timers_consistent.
  intros [= Hl Hg Hu Ht Hleft Hrun Hfs Hc].
  by rewrite Hg, Hu, Ht, Hleft, Hrun, Hc.
Qed.

Lemma session_inv_stopGame (s : State) : session_inv s → session_inv (stopGame s).
Proof.
  unfold session_inv, timers_consistent. rewrite stopGame_eq.
  cbn [isGameRunning gameInterval updateInterval gameTimer gameTimeLeft cellSize].
  intros (_ & Ht & _ & Hc). repeat split; try done; lia.
Qed.

Lemma session_inv_startGame (h1 h2 h3 : positive) (w h : Z) (s : State) :
  session_inv s → session_inv (startGame h1 h2 h3 w h s).
Proof.
  unfold session_inv, timers_consistent. rewrite startGame_eq.
  cbn [isGameRunning gameInterval updateInterval gameTimer gameTimeLeft cellSize].
  intros (_ & _ & _ & Hc). repeat split; try lia; destruct (isFullscreen s); lia.
Qed.

Lemma session_inv_resetGame (s : State) : session_inv s → session_inv (resetGame s).
Proof.
  unfold session_inv, timers_consistent. rewrite resetGame_eq.
  cbn [isGameRunning gameInterval updateInterval gameTimer gameTimeLeft cellSize].
  intros (_ & _ & _ & Hc). repeat split; try done; lia.
Qed.

Lemma session_inv_clockTick (s : State) :
  session_inv s → isGameRunning s = true → session_inv (clockTick s).
Proof.
  intros (Htc & Ht & Hrun & Hc) Hr. specialize (Hrun Hr).
  unfold clockTick. cbn [gameTimeLeft set_gameTimeLeft].
  destruct (Z.leb_spec (gameTimeLeft s - 1) 0) as [Hz | Hz].
  - unfold endGame, session_inv, timers_consistent. rewrite stopGame_eq.
    cbn. repeat split; try done; lia.
  - unfold session_inv, timers_consistent in *.
    cbn [isGameRunning gameInterval updateInterval gameTimer gameTimeLeft
         cellSize set_gameTimeLeft].
    repeat split; try done; lia.
Qed.

Lemma timers_consistent_running (s : State) :
  timers_consistent s →
  (isGameRunning s = true
   ∧ is_Some (gameInterval s) ∧ is_Some (updateInterval s)
   ∧ is_Some (gameTimer s))
  ∨ (isGameRunning s = false
     ∧ gameInterval s = None ∧ updateInterval s = None ∧ gameTimer s = None).
Proof.
  unfold timers_consistent.
  destruct (isGameRunning s), (gameInterval s), (updateInterval s),
    (gameTimer s); try done; intros _; [left | right]; repeat split; eauto.
Qed.

Lemma session_inv_fields_level (n : Z) (s : State) :
  session_inv s → session_inv (set_level n s).
Proof. done. Qed.

Lemma session_inv_step (s : State) (ev : Event) :
  session_inv s → session_inv (step s ev).
Proof.
  intros Hinv.
  destruct (playEvent ev) eqn:Hplay; [destruct (isClockTick ev) eqn:Hclock |].
  - destruct ev; try discriminate. cbn [step].
    destruct (timers_consistent_running s (proj1 Hinv))
      as [(Hr & _ & _ & [t Ht]) | (_ & _ & _ & Ht)]; rewrite Ht; [| done].
    by apply session_inv_clockTick.
  - eapply session_inv_fields; [| exact Hinv].
    by apply sessionFields_board_event.
  - destruct ev; try discriminate; cbn [step].
    + by apply session_inv_startGame.
    + by apply session_inv_stopGame.
    + by apply session_inv_resetGame.
    + unfold changeLevel. cbn [isGameRunning set_level].
      destruct (isGameRunning s) eqn:Hr.
      * apply session_inv_startGame. revert Hinv.
        by apply session_inv_fields_level.
      * revert Hinv. by apply session_inv_fields_level.
Qed.

Lemma session_inv_mounted (w h : Z) : session_inv (mounted w h).
Proof.
  unfold session_inv, timers_consistent, mounted.
  rewrite cellSize_calculateBoardSize.
  cbn [isGameRunning gameInterval updateInterval gameTimer gameTimeLeft
       calculateBoardSize set_cellSize initBoard set_gameBoard set_heap
       initialState isFullscreen reservedHeight].
  repeat split; try done; Z.div_mod_to_equations; lia.
Qed.

Lemma session_inv_run (s : State) (evs : list Event) :
  session_inv s → session_inv (run s evs).
Proof.
  revert s. induction evs as [| ev evs IH]; intros s Hinv; [done |].
  apply IH. by apply session_inv_step.
Qed.

(** X5. At every turn of the event loop after mounting, each of the three
    interval handles is installed exactly when the round is running: no
    timer outlives a stopped round, and a running round never lacks one. *)
Theorem timers_installed_iff_running (w h : Z) (evs : list Event) :
  let s := run (mounted w h) evs in
  (isGameRunning s = true ↔ is_Some (gameInterval s))
  ∧ (isGameRunning s = true ↔ is_Some (updateInterval s))
  ∧ (isGameRunning s = true ↔ is_Some (gameTimer s)).
Proof.
  cbv zeta.
  pose proof (session_inv_run _ evs (session_inv_mounted w h)) as [Htc _].
  destruct (timers_consistent_running _ Htc)
    as [(Hr & Hg & Hu & Ht) | (Hr & Hg & Hu & Ht)].
  - repeat split; done.
  - rewrite Hr, Hg, Hu, Ht.
    repeat split; (discriminate || by intros [? ?]).
Qed.

Lemma session_inv_calculateBoardSize (w h : Z) (s : State) :
  session_inv s → session_inv (calculateBoardSize w h s).
Proof.
  intros (Htc & Ht & Hrun & _).
  unfold session_inv. rewrite cellSize_calculateBoardSize.
  split; [exact Htc |]. split; [exact Ht |]. split; [exact Hrun |].
  Z.div_mod_to_equations; lia.
Qed.

Lemma session_inv_uiStep (s : State) (ev : UiEvent) :
  session_inv s → session_inv (uiStep s ev).
Proof.
  intros Hinv. destruct ev as [ev | w h | b w h | b | | w h]; cbn [uiStep].
  - by apply session_inv_step.
  - by apply session_inv_calculateBoardSize.
  - apply session_inv_calculateBoardSize. exact Hinv.
  - exact Hinv.
  - exact Hinv.
  - by apply session_inv_calculateBoardSize.
Qed.

Lemma session_inv_uiRun (s : State) (evs : list UiEvent) :
  session_inv s → session_inv (uiRun s evs).
Proof.
  revert s. induction evs as [| ev evs IH]; intros s Hinv; [done |].
  apply IH. by apply session_inv_uiStep.
Qed.

(** The layout turns do reach fullscreen and do change the cell size: a
    [fullscreenchange] into fullscreen followed by a resize to a small
    window, and a start made while in fullscreen. *)
Lemma layout_turns_change_cellSize :
  cellSize (mounted 1280 720) = 50
  ∧ isFullscreen
      (uiRun (mounted 1280 720)
         [UiFullscreenChange true 1920 1080; UiResize 300 200]) = true
  ∧ cellSize
      (uiRun (mounted 1280 720)
         [UiFullscreenChange true 1920 1080; UiResize 300 200]) = 15
  ∧ cellSize
      (uiRun (mounted 1280 720)
         [UiToggleGranted true; UiGame (EvStart 1 2 3 600 500)]) = 46.
Proof. vm_compute. repeat split. Qed.

(** X6. At every turn after mounting, the layout turns included (window
    resize, fullscreen change, the continuations of [toggleFullscreen]),
    the round clock is between 0 and 60 seconds and at least 1 while the
    round runs, so the time shown is always [0:00] to [1:00] in the form
    [M:SS]; and the cell size is between 15 and 50 pixels. *)
Theorem clock_and_layout_in_range (w h : Z) (evs : list UiEvent) :
  let s := uiRun (mounted w h) evs in
  0 ≤ gameTimeLeft s ≤ 60
  ∧ (isGameRunning s = true → 1 ≤ gameTimeLeft s)
  ∧ Clock.formatTime (gameTimeLeft s) = Clock.display (gameTimeLeft s)
  ∧ String.length (Clock.formatTime (gameTimeLeft s)) = 4%nat
  ∧ 15 ≤ cellSize s ≤ 50.
Proof.
  cbv zeta.
  pose proof (session_inv_uiRun _ evs (session_inv_mounted w h))
    as (_ & Ht & Hrun & Hc).
  destruct (formatTime_below_600 (gameTimeLeft (uiRun (mounted w h) evs))
              ltac:(lia)) as (Hd & Hlen & _).
  done.
Qed.

(** ** The round clock *)

Lemma countEvents_cons (p : Event → bool) (ev : Event) (evs : list Event) :
  countEvents p (ev :: evs)
    = (if p ev then 1 else 0) + countEvents p evs.
Proof.
  unfold countEvents. cbn [List.filter]. destruct (p ev); cbn [length]; lia.
Qed.

Lemma countEvents_nonneg (p : Event → bool) (evs : list Event) :
  0 ≤ countEvents p evs.
Proof. unfold countEvents. lia. Qed.

Lemma timers_consistent_fields (s s' : State) :
  sessionFields s' = sessionFields s → timers_consistent s → timers_consistent s'.
Proof.
  unfold sessionFields, timers_consistent.
  intros [= Hl Hg Hu Ht Hleft Hrun Hfs Hc]. by rewrite Hg, Hu, Ht, Hrun.
Qed.

(** In a stopped round no event of play touches the session refs. *)
Lemma stopped_step_fields (s : State) (ev : Event) :
  timers_consistent s → isGameRunning s = false → playEvent ev = true →
  sessionFields (step s ev) = sessionFields s.
Proof.
  intros Htc Hr Hplay. destruct (isClockTick ev) eqn:Hclock.
  - destruct ev; try discriminate. cbn [step].
    destruct (timers_consistent_running s Htc)
      as [(Hr' & _) | (_ & _ & _ & Ht)]; [congruence |]. by rewrite Ht.
  - by apply sessionFields_board_event.
Qed.

Lemma stopped_run_fields (s : State) (evs : list Event) :
  timers_consistent s → isGameRunning s = false →
  forallb playEvent evs = true →
  sessionFields (run s evs) = sessionFields s.
Proof.
  revert s. induction evs as [| ev evs IH]; intros s Htc Hr Hplay; [done |].
  cbn [forallb] in Hplay. apply andb_prop in Hplay as [Hev Hevs].
  pose proof (stopped_step_fields s ev Htc Hr Hev) as Hf.
  change (run s (ev :: evs)) with (run (step s ev) evs).
  rewrite IH; [exact Hf | | | exact Hevs].
  - by eapply timers_consistent_fields.
  - unfold sessionFields in Hf. injection Hf as _ _ _ _ _ Hr' _ _. congruence.
Qed.

Lemma clock_run (s : State) (evs : list Event) :
  timers_consistent s → isGameRunning s = true → 1 ≤ gameTimeLeft s →
  forallb playEvent evs = true →
  let k := countEvents isClockTick evs in
  if k <? gameTimeLeft s
  then isGameRunning (run s evs) = true
       ∧ gameTimeLeft (run s evs) = gameTimeLeft s - k
  else isGameRunning (run s evs) = false
       ∧ gameTimeLeft (run s evs) = 0
       ∧ gameInterval (run s evs) = None
       ∧ updateInterval (run s evs) = None
       ∧ gameTimer (run s evs) = None.
Proof.
  revert s. induction evs as [| ev evs IH]; intros s Htc Hr Hpos Hplay.
  - cbv zeta. change (countEvents isClockTick []) with 0.
    destruct (Z.ltb_spec 0 (gameTimeLeft s)); [| lia].
    split; [exact Hr | cbn; lia].
  - cbn [forallb] in Hplay. apply andb_prop in Hplay as [Hev Hevs].
    change (run s (ev :: evs)) with (run (step s ev) evs).
    cbv zeta. rewrite countEvents_cons.
    pose proof (countEvents_nonneg isClockTick evs) as Hk.
    destruct (isClockTick ev) eqn:Hclock.
    + destruct ev; try discriminate. cbn [step].
      destruct (timers_consistent_running s Htc)
        as [(_ & _ & _ & [t Ht]) | (Hr' & _)]; [| congruence].
      rewrite Ht. unfold clockTick. cbn [gameTimeLeft set_gameTimeLeft].
      destruct (Z.leb_spec (gameTimeLeft s - 1) 0) as [Hz | Hz].
      * assert (Hone : gameTimeLeft s = 1) by lia.
        destruct (Z.ltb_spec (1 + countEvents isClockTick evs) (gameTimeLeft s));
          [lia |].
        remember (endGame (set_gameTimeLeft (gameTimeLeft s - 1) s)) as s'
          eqn:Es'.
        assert (Hs' : sessionFields s'
                  = (level s, None, None, None, 0, false, isFullscreen s,
                     cellSize s)).
        { rewrite Es'. unfold endGame. rewrite stopGame_eq.
          unfold sessionFields. cbn. rewrite Hone. reflexivity. }
        clear Es'. unfold sessionFields in Hs'.
        injection Hs' as _ Hg Hu Hti Hleft Hrun _ _.
        assert (Hf : sessionFields (run s' evs) = sessionFields s').
        { apply stopped_run_fields; [| exact Hrun | exact Hevs].
          unfold timers_consistent. by rewrite Hrun, Hg, Hu, Hti. }
        unfold sessionFields in Hf.
        injection Hf as _ Hg' Hu' Hti' Hleft' Hrun' _ _.
        rewrite Hg', Hu', Hti', Hleft', Hrun'. done.
      * set (s' := set_gameTimeLeft (gameTimeLeft s - 1) s).
        specialize (IH s' Htc Hr ltac:(cbn; lia) Hevs). cbv zeta in IH.
        change (gameTimeLeft s') with (gameTimeLeft s - 1) in IH.
        destruct (Z.ltb_spec (countEvents isClockTick evs) (gameTimeLeft s - 1));
          destruct (Z.ltb_spec (1 + countEvents isClockTick evs) (gameTimeLeft s));
          try lia; [| exact IH].
        destruct IH as [IH1 IH2]. split; [exact IH1 | lia].
    + pose proof (sessionFields_board_event s ev Hev Hclock) as Hf.
      assert (Htc' : timers_consistent (step s ev))
        by (by eapply timers_consistent_fields).
      unfold sessionFields in Hf. injection Hf as _ _ _ _ Hleft Hrun _ _.
      specialize (IH (step s ev) Htc' ltac:(congruence) ltac:(lia) Hevs).
      cbv zeta in IH. rewrite Hleft in IH.
      replace (0 + countEvents isClockTick evs)
        with (countEvents isClockTick evs) by lia.
      exact IH.
Qed.

(** X7. After [startGame], however the spawner ticks, decay ticks, clicks
    and removals interleave with the clock: while fewer than 60 clock
    ticks have passed the round runs and shows [60 - ticks] seconds; from
    the 60th clock tick on it is over, the clock shows 0 and all three
    timers are cleared. *)
Theorem round_lasts_sixty_ticks (h1 h2 h3 : positive) (w h : Z) (s0 : State)
    (evs : list Event) :
  forallb playEvent evs = true →
  let s := run (startGame h1 h2 h3 w h s0) evs in
  let k := countEvents isClockTick evs in
  (k < 60 → isGameRunning s = true ∧ gameTimeLeft s = 60 - k)
  ∧ (60 ≤ k → isGameRunning s = false ∧ gameTimeLeft s = 0
              ∧ gameInterval s = None ∧ updateInterval s = None
              ∧ gameTimer s = None).
Proof.
  intros Hplay. cbv zeta.
  assert (Htc : timers_consistent (startGame h1 h2 h3 w h s0))
    by (unfold timers_consistent; rewrite startGame_eq; done).
  assert (Hr : isGameRunning (startGame h1 h2 h3 w h s0) = true)
    by (rewrite startGame_eq; done).
  assert (Ht : gameTimeLeft (startGame h1 h2 h3 w h s0) = 60)
    by (rewrite startGame_eq; done).
  pose proof (clock_run _ evs Htc Hr ltac:(lia) Hplay) as H.
  cbv zeta in H. rewrite Ht in H.
  destruct (Z.ltb_spec (countEvents isClockTick evs) 60); split; intros; (lia || done).
Qed.

Lemma round_lasts_sixty_ticks_witness :
  forallb playEvent (replicate 60 EvClockTick) = true
  ∧ isGameRunning (run started (replicate 60 EvClockTick)) = false.
Proof.
  assert (Hp : forallb playEvent (replicate 60 EvClockTick) = true)
    by reflexivity.
  split; [exact Hp |].
  destruct (round_lasts_sixty_ticks 1 2 3 1280 720 (mounted 1280 720)
              (replicate 60 EvClockTick) Hp) as [_ Hend].
  destruct Hend as [Hr _]; [vm_compute; discriminate |]. exact Hr.
Defined.

(** ** A stopped round *)

Lemma clickCell_stopped (cell : nat) (s : State) :
  isGameRunning s = false → clickCell cell s = s.
Proof.
  intros Hr. unfold clickCell. destruct (heap s !! cell) as [c |]; [| done].
  by rewrite Hr, orb_true_r.
Qed.

(** X8. Once the round is not running (before the first start, after stop,
    reset or the end of the round), spawner ticks, decay ticks, clock
    ticks and clicks change nothing at all: the board stays frozen as it
    was.  Only a removal timeout scheduled earlier can still clear its
    cell. *)
Theorem stopped_round_is_frozen (w h : Z) (evs : list Event) (ev : Event) :
  let s := run (mounted w h) evs in
  isGameRunning s = false →
  playEvent ev = true → ev ≠ EvRemoval →
  step s ev = s.
Proof.
  cbv zeta. intros Hr Hplay Hne.
  pose proof (session_inv_run _ evs (session_inv_mounted w h)) as [Htc _].
  destruct (timers_consistent_running _ Htc)
    as [(Hr' & _) | (_ & Hg & Hu & Ht)]; [congruence |].
  destruct ev; try discriminate; cbn [step].
  - by rewrite Hg.
  - by rewrite Hu.
  - by rewrite Ht.
  - destruct (gameBoard _ !! i); [| done]. by apply clickCell_stopped.
  - done.
Qed.

Lemma stopped_round_is_frozen_witness :
  (isGameRunning (run (mounted 1280 720)
                    [EvStart 1 2 3 1280 720; EvSpawnTick 5; EvStop]) = false
   ∧ playEvent (EvClick 5) = true ∧ EvClick 5 ≠ EvRemoval)
  ∧ step (run (mounted 1280 720)
            [EvStart 1 2 3 1280 720; EvSpawnTick 5; EvStop]) (EvClick 5)
    = run (mounted 1280 720) [EvStart 1 2 3 1280 720; EvSpawnTick 5; EvStop].
Proof.
  assert (Hr : isGameRunning (run (mounted 1280 720)
                 [EvStart 1 2 3 1280 720; EvSpawnTick 5; EvStop]) = false)
    by (vm_compute; reflexivity).
  assert (Hp : playEvent (EvClick 5) = true) by reflexivity.
  assert (Hne : EvClick 5 ≠ EvRemoval) by discriminate.
  split; [auto |].
  exact (stopped_round_is_frozen 1280 720
           [EvStart 1 2 3 1280 720; EvSpawnTick 5; EvStop] (EvClick 5)
           Hr Hp Hne).
Defined.

(** ** Counters *)

Lemma counters_spawnWhiteBlock (rnd : nat) (s s' : State) :
  spawnWhiteBlock rnd s = Some s' →
  score s' = score s
  ∧ totalSpawned s ≤ totalSpawned s' ≤ totalSpawned s + 1.
Proof.
  unfold spawnWhiteBlock.
  destruct (length _ =? 0)%nat; [intros [= <-]; lia |].
  destruct (_ !! _) as [loc |]; [| discriminate].
  intros [= <-]. cbn. lia.
Qed.

Lemma counters_clickCell (cell : nat) (s : State) :
  totalSpawned (clickCell cell s) = totalSpawned s
  ∧ score s ≤ score (clickCell cell s) ≤ score s + 1.
Proof.
  unfold clickCell. destruct (heap s !! cell) as [c |]; [| lia].
  destruct (_ || _); cbn; lia.
Qed.

Lemma counters_step (s : State) (ev : Event) :
  playEvent ev = true →
  score s ≤ score (step s ev)
          ≤ score s + (if isClick ev then 1 else 0)
  ∧ totalSpawned s ≤ totalSpawned (step s ev)
                   ≤ totalSpawned s + (if isSpawnTick ev then 1 else 0).
Proof.
  destruct ev; try discriminate; intros _; cbn [step isClick isSpawnTick].
  - destruct (gameInterval s); [| lia]. unfold spawnTick.
    destruct (isGameRunning s); [| lia].
    destruct (spawnWhiteBlock rnd s) as [s' |] eqn:Hs;
      [change (default s (Some s')) with s'
      | change (default s None) with s; lia].
    destruct (counters_spawnWhiteBlock rnd s s' Hs) as [Hsc Hto].
    rewrite Hsc. lia.
  - destruct (updateInterval s); cbn; lia.
  - destruct (gameTimer s); [| lia]. unfold clockTick.
    destruct (_ <=? _); [| cbn; lia].
    unfold endGame. rewrite stopGame_eq. cbn. lia.
  - destruct (gameBoard s !! i) as [cell |]; [| lia].
    destruct (counters_clickCell cell s). lia.
  - unfold fireRemoval. destruct (removals s); cbn; lia.
Qed.

(** X9. While the controller is not used, neither counter ever goes down:
    the score grows by at most one per click and by nothing else, and
    [totalSpawned] grows by at most one per spawner tick and by nothing
    else. *)
Theorem counters_bounded_by_events (s : State) (evs : list Event) :
  forallb playEvent evs = true →
  score s ≤ score (run s evs) ≤ score s + countEvents isClick evs
  ∧ totalSpawned s ≤ totalSpawned (run s evs)
                   ≤ totalSpawned s + countEvents isSpawnTick evs.
Proof.
  revert s. induction evs as [| ev evs IH]; intros s Hplay.
  - unfold countEvents. cbn. lia.
  - cbn [forallb] in Hplay. apply andb_prop in Hplay as [Hev Hevs].
    change (run s (ev :: evs)) with (run (step s ev) evs).
    rewrite !countEvents_cons.
    pose proof (counters_step s ev Hev). specialize (IH (step s ev) Hevs).
    lia.
Qed.

Lemma counters_bounded_by_events_witness :
  forallb playEvent [EvSpawnTick 5; EvClick 5; EvDecayTick; EvRemoval] = true
  ∧ score (run started [EvSpawnTick 5; EvClick 5; EvDecayTick; EvRemoval])
      ≤ score started + 1.
Proof.
  assert (Hp : forallb playEvent
                 [EvSpawnTick 5; EvClick 5; EvDecayTick; EvRemoval] = true)
    by reflexivity.
  split; [exact Hp |].
  destruct (counters_bounded_by_events started
              [EvSpawnTick 5; EvClick 5; EvDecayTick; EvRemoval] Hp)
    as [[_ Hs] _].
  exact Hs.
Defined.

(** ** How a turn of the event loop changes the cells *)

Lemma heap_change_spawnWhiteBlock (rnd : nat) (s s' : State) :
  spawnWhiteBlock rnd s = Some s' → heap_change s s'.
Proof.
  unfold spawnWhiteBlock.
  destruct (length _ =? 0)%nat; [intros [= <-]; by apply hc_same |].
  destruct (_ !! _) as [loc |] eqn:Hloc; [| discriminate].
  intros [= <-].
  apply list_elem_of_lookup_2, list_elem_of_filter in Hloc as [Hina Hin].
  apply inactiveAt_true in Hina as (c & Hc & Hact).
  apply (hc_spawn _ _ loc c); try done.
  cbn [heap set_heap set_totalSpawned].
  by rewrite (alter_insert_lookup _ _ _ _ Hc).
Qed.

Lemma heap_change_clickCell (cell : nat) (s : State) :
  cell ∈ gameBoard s → heap_change s (clickCell cell s).
Proof.
  intros Hin. unfold clickCell.
  destruct (heap s !! cell) as [c |] eqn:Hc; [| by apply hc_same].
  destruct (isActive c) eqn:Hact; [| by apply hc_same].
  destruct (isGameRunning s); [| by apply hc_same]. cbn [negb orb].
  apply (hc_click _ _ cell c); try done.
  cbn [heap set_heap set_score set_removals].
  by rewrite (alter_insert_lookup _ _ _ _ Hc).
Qed.

Lemma heap_change_fireRemoval (s : State) : heap_change s (fireRemoval s).
Proof.
  unfold fireRemoval. destruct (removals s) as [| cell rest] eqn:Hr;
    [by apply hc_same |].
  by apply (hc_removal _ _ cell rest).
Qed.

Lemma heap_change_startGame (h1 h2 h3 : positive) (w h : Z) (s : State) :
  heap_change s (startGame h1 h2 h3 w h s).
Proof. apply hc_rebuild; rewrite startGame_eq; reflexivity. Qed.

Lemma heap_change_resetGame (s : State) : heap_change s (resetGame s).
Proof. apply hc_rebuild; rewrite resetGame_eq; reflexivity. Qed.

Lemma heap_change_step (s : State) (ev : Event) : heap_change s (step s ev).
Proof.
  destruct ev; cbn [step].
  - destruct (gameInterval s); [| by apply hc_same]. unfold spawnTick.
    destruct (isGameRunning s); [| by apply hc_same].
    destruct (spawnWhiteBlock rnd s) as [s' |] eqn:Hs; [| by apply hc_same].
    by apply (heap_change_spawnWhiteBlock rnd).
  - destruct (updateInterval s); [| by apply hc_same]. by apply hc_decay.
  - destruct (gameTimer s); [| by apply hc_same]. unfold clockTick.
    destruct (_ <=? _); [| by apply hc_same].
    unfold endGame. rewrite stopGame_eq. by apply hc_same.
  - destruct (gameBoard s !! i) as [cell |] eqn:Hi; [| by apply hc_same].
    apply heap_change_clickCell. by eapply list_elem_of_lookup_2.
  - apply heap_change_fireRemoval.
  - apply heap_change_startGame.
  - rewrite stopGame_eq. by apply hc_same.
  - apply heap_change_resetGame.
  - unfold changeLevel. cbn [isGameRunning set_level].
    destruct (isGameRunning s); [| by apply hc_same].
    apply hc_rebuild; rewrite startGame_eq; reflexivity.
Qed.

(** ** Projections of cells that a mutation keeps *)

Section Projection.
Context {B : Type} (g : Cell → B).

Lemma alter_proj (f : Cell → Cell) (loc j : nat) (h : list Cell) :
  (∀ c, g (f c) = g c) → g <$> alter f loc h !! j = g <$> h !! j.
Proof.
  intros Hf. rewrite list_lookup_alter.
  destruct (decide (loc = j)) as [-> | Hne]; [| done].
  destruct (h !! j) as [c |]; [| done]. cbn. by rewrite Hf.
Qed.

Lemma foldl_alter_proj (f : Cell → Cell) (locs : list nat) (j : nat)
    (h : list Cell) :
  (∀ c, g (f c) = g c) →
  g <$> foldl (λ h loc, alter f loc h) h locs !! j = g <$> h !! j.
Proof.
  intros Hf. revert h.
  induction locs as [| x l IH]; intros h; cbn [foldl]; [done |].
  rewrite IH. by apply alter_proj.
Qed.

Lemma insert_proj (loc j : nat) (c c' : Cell) (h : list Cell) :
  h !! loc = Some c → g c' = g c →
  g <$> <[loc := c']> h !! j = g <$> h !! j.
Proof.
  intros Hc Hg. destruct (decide (loc = j)) as [<- | Hne].
  - rewrite list_lookup_insert_eq by (by eapply lookup_lt_Some).
    rewrite Hc. cbn. by rewrite Hg.
  - by rewrite list_lookup_insert_ne.
Qed.

Lemma omap_proj (h h' : list Cell) (board : list nat) :
  (∀ loc, g <$> h' !! loc = g <$> h !! loc) →
  g <$> omap (λ loc, h' !! loc) board = g <$> omap (λ loc, h !! loc) board.
Proof.
  intros Hp. induction board as [| x l IH]; [done |].
  cbn [omap list_omap]. specialize (Hp x).
  destruct (h' !! x) as [c' |], (h !! x) as [c |]; cbn in Hp |- *;
    try discriminate; [| exact IH].
  injection Hp as Hp. cbn [fmap list_fmap]. f_equal; [exact Hp | exact IH].
Qed.
End Projection.

Lemma decayCell_ident (c : Cell) : cellIdent (decayCell c) = cellIdent c.
Proof.
  unfold decayCell. destruct (_ && _); [| done]. by destruct (_ <=? _).
Qed.

Lemma decayCell_isAnimating (c : Cell) : isAnimating (decayCell c) = isAnimating c.
Proof.
  unfold decayCell. destruct (_ && _); [| done]. by destruct (_ <=? _).
Qed.

Lemma decayCell_settled (c : Cell) :
  (isActive c = false → isAnimating c = false) →
  isActive (decayCell c) = false → isAnimating (decayCell c) = false.
Proof.
  unfold decayCell. destruct c as [i r k a t n]. cbn.
  destruct a, n; cbn; try done; destruct (_ <=? _); cbn; done.
Qed.

Lemma foldl_alter_settled (locs : list nat) (h : list Cell) (j : nat) (c' : Cell) :
  foldl (λ h loc, alter decayCell loc h) h locs !! j = Some c' →
  ∃ c, h !! j = Some c
       ∧ ((isActive c = false → isAnimating c = false) →
          isActive c' = false → isAnimating c' = false).
Proof.
  revert h c'. induction locs as [| x l IH]; intros h c'; cbn [foldl].
  - intros Hc. exists c'. done.
  - intros Hc. destruct (IH _ _ Hc) as (c1 & Hc1 & Hs1).
    rewrite list_lookup_alter in Hc1.
    destruct (decide (x = j)) as [-> | Hne].
    + destruct (h !! j) as [c |]; [| discriminate]. injection Hc1 as <-.
      exists c. split; [done |]. intros Hs. apply Hs1.
      by apply decayCell_settled.
    + exists c1. done.
Qed.

(** ** Cells and removals along the event loop *)

Lemma removedCell_ident (c : Cell) : cellIdent (removedCell c) = cellIdent c.
Proof. done. Qed.

Lemma fresh_lookup_blank (i : nat) (c : Cell) :
  freshCells !! i = Some c →
  isActive c = false ∧ timeLeft c = 0 ∧ isAnimating c = false.
Proof.
  intros Hc. pose proof freshCells_blank as H.
  rewrite list.Forall_forall in H. apply H.
  by eapply list_elem_of_lookup_2.
Qed.

Lemma cells_inv_change (s s' : State) :
  heap_change s s' → cells_inv s → cells_inv s'.
Proof.
  intros Hch (Hwf & Hrem & Hset & Hpend & Hshape).
  destruct Hch as [Hh Hb Hr | loc c Hin Hc Hact Hh Hb Hr
                  | loc c Hin Hc Hact Hh Hb Hr | loc rest Hq Hh Hb Hr
                  | Hh Hb Hr | Hh Hb Hr].
  - unfold cells_inv, board_wf, boardCells in *. rewrite Hh, Hb, Hr. done.
  - assert (Hlen : length (heap s') = length (heap s))
      by (rewrite Hh; apply length_insert).
    split; [by eapply board_wf_keeps |].
    split; [by rewrite Hlen, Hr |].
    split; [| split].
    + intros loc' c'. rewrite Hh.
      intros [(_ & <- & _) | (_ & Hc')]%list_lookup_insert_Some; [done |].
      by apply (Hset loc').
    + intros loc' c'. rewrite Hh, Hr.
      intros [(<- & <- & _) | (_ & Hc')]%list_lookup_insert_Some.
      * cbn. by apply Hpend.
      * by apply Hpend.
    + rewrite <- Hshape. unfold boardCells. rewrite Hh, Hb.
      apply omap_proj. intros j. by eapply insert_proj.
  - assert (Hlen : length (heap s') = length (heap s))
      by (rewrite Hh; apply length_insert).
    split; [by eapply board_wf_keeps |].
    split.
    { rewrite Hlen, Hr. apply Forall_app. split; [done |].
      apply Forall_singleton. by eapply lookup_lt_Some. }
    split; [| split].
    + intros loc' c'. rewrite Hh.
      intros [(_ & <- & _) | (_ & Hc')]%list_lookup_insert_Some.
      * cbn. congruence.
      * by apply (Hset loc').
    + intros loc' c'. rewrite Hh, Hr.
      intros [(<- & <- & _) | (_ & Hc')]%list_lookup_insert_Some Han.
      * apply elem_of_app. right. apply list_elem_of_here.
      * apply elem_of_app. left. by eapply Hpend.
    + rewrite <- Hshape. unfold boardCells. rewrite Hh, Hb.
      apply omap_proj. intros j. by eapply insert_proj.
  - assert (Hlen : length (heap s') = length (heap s))
      by (rewrite Hh; apply length_alter).
    rewrite Hq in Hrem, Hpend.
    split; [by eapply board_wf_keeps |].
    split; [rewrite Hlen, Hr; by eapply Forall_inv_tail |].
    split; [| split].
    + intros loc' c'. rewrite Hh, list_lookup_alter.
      destruct (decide (loc = loc')) as [<- | Hne].
      * destruct (heap s !! loc); [| discriminate]. by intros [= <-].
      * apply Hset.
    + intros loc' c'. rewrite Hh, Hr, list_lookup_alter.
      destruct (decide (loc = loc')) as [<- | Hne].
      * destruct (heap s !! loc); [| discriminate]. by intros [= <-].
      * intros Hc' Han. specialize (Hpend loc' c' Hc' Han).
        apply elem_of_cons in Hpend as [-> | Hp]; done.
    + rewrite <- Hshape. unfold boardCells. rewrite Hh, Hb.
      apply omap_proj. intros j. apply alter_proj, removedCell_ident.
  - assert (Hlen : length (heap s') = length (heap s))
      by (rewrite Hh; apply length_foldl_alter).
    split; [by eapply board_wf_keeps |].
    split; [by rewrite Hlen, Hr |].
    split; [| split].
    + intros loc' c'. rewrite Hh. intros Hc'.
      destruct (foldl_alter_settled _ _ _ _ Hc') as (c & Hc & Hs).
      apply Hs. by apply (Hset loc').
    + intros loc' c'. rewrite Hh, Hr. intros Hc' Han.
      pose proof (foldl_alter_proj isAnimating decayCell (gameBoard s) loc'
                    (heap s) decayCell_isAnimating) as Hp.
      rewrite Hc' in Hp. destruct (heap s !! loc') as [c |] eqn:Hc;
        [| discriminate].
      injection Hp as Hp. apply (Hpend loc' c Hc). congruence.
    + rewrite <- Hshape. unfold boardCells. rewrite Hh, Hb.
      apply omap_proj. intros j. apply foldl_alter_proj, decayCell_ident.
  - split; [by eapply board_wf_fresh |].
    split.
    { rewrite Hh, Hr, length_app. rewrite list.Forall_forall in Hrem.
      apply list.Forall_forall. intros x Hx. specialize (Hrem x Hx). lia. }
    split; [| split].
    + intros loc' c'. rewrite Hh.
      intros [Hc' | (_ & Hc')]%lookup_app_Some; [by apply (Hset loc') |].
      intros _. by apply (fresh_lookup_blank _ _ Hc').
    + intros loc' c'. rewrite Hh, Hr.
      intros [Hc' | (_ & Hc')]%lookup_app_Some; [by apply Hpend |].
      intros Han. destruct (fresh_lookup_blank _ _ Hc') as (_ & _ & Hn).
      congruence.
    + f_equal. by eapply boardCells_app_seq.
Qed.

Lemma cells_inv_mounted (w h : Z) : cells_inv (mounted w h).
Proof.
  split; [apply board_wf_mounted |].
  split; [constructor |].
  split; [| split].
  - intros loc c Hc _. by apply (fresh_lookup_blank loc c).
  - intros loc c Hc Han.
    destruct (fresh_lookup_blank loc c Hc) as (_ & _ & Hn). congruence.
  - by rewrite (boardCells_app_seq (mounted w h) [] freshCells).
Qed.

Lemma cells_inv_step (s : State) (ev : Event) :
  cells_inv s → cells_inv (step s ev).
Proof. apply cells_inv_change, heap_change_step. Qed.

Lemma cells_inv_run (s : State) (evs : list Event) :
  cells_inv s → cells_inv (run s evs).
Proof.
  revert s. induction evs as [| ev evs IH]; intros s Hinv; [done |].
  apply IH. by apply cells_inv_step.
Qed.

Lemma freshCells_positions :
  cellIdent <$> freshCells = (λ k, (k, k / 12, k mod 12)) <$> seqZ 0 72.
Proof. vm_compute. reflexivity. Qed.

(** X10. At every turn of the event loop after mounting, the board shows
    exactly 72 cells and the k-th of them is the cell with id k at row
    k / 12 and column k mod 12: no operation ever adds, drops, reorders or
    relabels a cell. *)
Theorem board_positions_fixed (w h : Z) (evs : list Event) :
  let s := run (mounted w h) evs in
  length (boardCells s) = 72%nat
  ∧ (λ c, (id c, row c, col c)) <$> boardCells s
      = (λ k, (k, k / 12, k mod 12)) <$> seqZ 0 72.
Proof.
  cbv zeta.
  pose proof (cells_inv_run _ evs (cells_inv_mounted w h))
    as (_ & _ & _ & _ & Hshape).
  split.
  - apply (f_equal length) in Hshape. rewrite !length_fmap in Hshape.
    by rewrite Hshape.
  - change (λ c, (id c, row c, col c)) with cellIdent.
    by rewrite Hshape, freshCells_positions.
Qed.

(** X11. At every turn of the event loop after mounting, for every cell of
    the board: an inactive cell is never animating, and an animating cell
    always has its removal timeout pending, so it cannot stay animating
    for ever. *)
Theorem animating_cells_are_pending (w h : Z) (evs : list Event) :
  let s := run (mounted w h) evs in
  ∀ loc c, loc ∈ gameBoard s → heap s !! loc = Some c →
    (isActive c = false → isAnimating c = false)
    ∧ (isAnimating c = true → isActive c = true ∧ loc ∈ removals s).
Proof.
  cbv zeta. intros loc c _ Hc.
  pose proof (cells_inv_run _ evs (cells_inv_mounted w h))
    as (_ & _ & Hset & Hpend & _).
  split; [by apply (Hset loc) |].
  intros Han. split; [| by eapply Hpend].
  destruct (isActive c) eqn:Hact; [done |].
  specialize (Hset loc c Hc Hact). congruence.
Qed.

(** ** Draining the removal queue *)

Lemma fireRemoval_cons (s : State) (cell : nat) (rest : list nat) :
  removals s = cell :: rest →
  removals (fireRemoval s) = rest
  ∧ heap (fireRemoval s) = alter removedCell cell (heap s)
  ∧ gameBoard (fireRemoval s) = gameBoard s
  ∧ score (fireRemoval s) = score s
  ∧ totalSpawned (fireRemoval s) = totalSpawned s.
Proof. intros Hr. unfold fireRemoval. rewrite Hr. done. Qed.

Lemma drain_frame (rems : list nat) (s : State) :
  removals s = rems →
  let s' := Nat.iter (length rems) fireRemoval s in
  removals s' = []
  ∧ gameBoard s' = gameBoard s
  ∧ score s' = score s
  ∧ totalSpawned s' = totalSpawned s
  ∧ sessionFields s' = sessionFields s.
Proof.
  revert s. induction rems as [| x rest IH]; intros s Hr; [done |].
  cbv zeta. cbn [length]. rewrite Nat.iter_succ_r.
  destruct (fireRemoval_cons s x rest Hr) as (Hr1 & _ & Hb1 & Hs1 & Ht1).
  destruct (IH (fireRemoval s) Hr1) as (Hr' & Hb' & Hs' & Ht' & Hf').
  rewrite Hr', Hb', Hs', Ht', Hf', Hb1, Hs1, Ht1.
  by rewrite sessionFields_fireRemoval.
Qed.

Lemma drain_other (rems : list nat) (s : State) (loc : nat) :
  removals s = rems → loc ∉ rems →
  heap (Nat.iter (length rems) fireRemoval s) !! loc = heap s !! loc.
Proof.
  revert s. induction rems as [| x rest IH]; intros s Hr Hnot; [done |].
  apply not_elem_of_cons in Hnot as [Hne Hnot].
  cbn [length]. rewrite Nat.iter_succ_r.
  destruct (fireRemoval_cons s x rest Hr) as (Hr1 & Hh1 & _).
  rewrite (IH (fireRemoval s) Hr1 Hnot), Hh1.
  by rewrite list_lookup_alter_ne.
Qed.

Lemma drain_removed (rems : list nat) (s : State) (loc : nat) (c : Cell) :
  removals s = rems → loc ∈ rems → heap s !! loc = Some c →
  heap (Nat.iter (length rems) fireRemoval s) !! loc = Some (removedCell c).
Proof.
  revert s c. induction rems as [| x rest IH]; intros s c Hr Hin Hc.
  - by apply not_elem_of_nil in Hin.
  - cbn [length]. rewrite Nat.iter_succ_r.
    destruct (fireRemoval_cons s x rest Hr) as (Hr1 & Hh1 & _).
    destruct (decide (x = loc)) as [-> | Hne].
    + assert (Hc1 : heap (fireRemoval s) !! loc = Some (removedCell c))
        by (by rewrite Hh1, list_lookup_alter_eq, Hc).
      destruct (decide (loc ∈ rest)) as [Hin' | Hnot].
      * by rewrite (IH (fireRemoval s) (removedCell c) Hr1 Hin' Hc1).
      * by rewrite (drain_other rest (fireRemoval s) loc Hr1 Hnot).
    + apply elem_of_cons in Hin as [-> | Hin]; [done |].
      apply (IH (fireRemoval s) c Hr1 Hin).
      by rewrite Hh1, list_lookup_alter_ne.
Qed.

(** X12. Take any state the event loop can reach after mounting and let
    every pending removal timeout fire.  Then the queue is empty and no
    cell of the board is animating any more; each cell that had a removal
    pending is inactive with [timeLeft] 0, every other cell is exactly as
    it was, and the score, [totalSpawned] and the session refs are
    untouched. *)
Theorem removals_drain (w h : Z) (evs : list Event) :
  let s := run (mounted w h) evs in
  let s' := Nat.iter (length (removals s)) fireRemoval s in
  removals s' = []
  ∧ Forall (λ c, isAnimating c = false) (boardCells s')
  ∧ (∀ loc c, loc ∈ removals s → heap s !! loc = Some c →
       heap s' !! loc
         = Some (mkCell (id c) (row c) (col c) false 0 false))
  ∧ (∀ loc, loc ∉ removals s → heap s' !! loc = heap s !! loc)
  ∧ score s' = score s ∧ totalSpawned s' = totalSpawned s
  ∧ sessionFields s' = sessionFields s.
Proof.
  cbv zeta. set (s := run (mounted w h) evs).
  destruct (drain_frame (removals s) s eq_refl) as (Hr & Hb & Hs & Ht & Hf).
  split; [exact Hr |].
  split.
  { assert (Hinv : cells_inv (Nat.iter (length (removals s)) fireRemoval s)).
    { apply Nat.iter_invariant.
      - intros x Hx. apply (cells_inv_step x EvRemoval Hx).
      - apply cells_inv_run, cells_inv_mounted. }
    destruct Hinv as (_ & _ & _ & Hpend & _).
    apply list.Forall_forall. intros c Hc.
    apply elem_of_boardCells in Hc as (loc & _ & Hc).
    destruct (isAnimating c) eqn:Han; [| done].
    specialize (Hpend loc c Hc Han). rewrite Hr in Hpend.
    by apply not_elem_of_nil in Hpend. }
  split; [intros loc c Hin Hc; by apply (drain_removed (removals s)) |].
  split; [intros loc Hnot; by apply (drain_other (removals s)) |].
  done.
Qed.

(** ** Removals that outlive their board *)

Lemma rebuilt_board_drain (n : nat) (s : State) (h : list Cell) :
  heap s = h ++ freshCells →
  gameBoard s = seq (length h) (length freshCells) →
  Forall (λ loc, (loc < length h)%nat) (removals s) →
  boardCells (Nat.iter n fireRemoval s) = freshCells.
Proof.
  revert s h. induction n as [| n IH]; intros s h Hh Hb Hrem.
  - by eapply boardCells_app_seq.
  - rewrite Nat.iter_succ_r.
    destruct (removals s) as [| x rest] eqn:Hr.
    + assert (Hs : fireRemoval s = s) by (unfold fireRemoval; by rewrite Hr).
      rewrite Hs. apply (IH s h); by rewrite ?Hr.
    + destruct (fireRemoval_cons s x rest Hr) as (Hr1 & Hh1 & Hb1 & _).
      pose proof (Forall_inv Hrem) as Hx.
      pose proof (Forall_inv_tail Hrem) as Hrest. cbn in Hx.
      apply (IH (fireRemoval s) (alter removedCell x h)).
      * rewrite Hh1, Hh. by apply alter_app_l.
      * by rewrite Hb1, Hb, length_alter.
      * rewrite Hr1, length_alter. exact Hrest.
Qed.

(** X13. The removal timeouts are never cancelled, but they cannot reach a
    rebuilt board: after a reset or a start from any state the event loop
    can reach, however many of the removals still pending fire, the board
    shows 72 blank cells. *)
Theorem stale_removals_spare_new_board (w h : Z) (evs : list Event) (n : nat)
    (h1 h2 h3 : positive) (w' h' : Z) :
  let s := run (mounted w h) evs in
  boardCells (Nat.iter n fireRemoval (resetGame s)) = freshCells
  ∧ boardCells (Nat.iter n fireRemoval (startGame h1 h2 h3 w' h' s))
      = freshCells.
Proof.
  cbv zeta. set (s := run (mounted w h) evs).
  pose proof (cells_inv_run _ evs (cells_inv_mounted w h)) as (_ & Hrem & _).
  fold s in Hrem.
  split.
  - apply (rebuilt_board_drain n _ (heap s)); rewrite resetGame_eq; done.
  - apply (rebuilt_board_drain n _ (heap s)); rewrite startGame_eq; done.
Qed.

(** ** Time left against the lifetime of the level *)

Lemma foldl_alter_keeps (P : Cell → Prop) (f : Cell → Cell) (locs : list nat)
    (h : list Cell) (j : nat) (c' : Cell) :
  (∀ c, P c → P (f c)) →
  foldl (λ h loc, alter f loc h) h locs !! j = Some c' →
  ∃ c, h !! j = Some c ∧ (P c → P c').
Proof.
  intros Hf. revert h c'. induction locs as [| x l IH]; intros h c'; cbn [foldl].
  - intros Hc. exists c'. done.
  - intros Hc. destruct (IH _ _ Hc) as (c1 & Hc1 & Hs1).
    rewrite list_lookup_alter in Hc1.
    destruct (decide (x = j)) as [-> | Hne].
    + destruct (h !! j) as [c |]; [| discriminate]. injection Hc1 as <-.
      exists c. split; [done |]. intros Hp. by apply Hs1, Hf.
    + exists c1. done.
Qed.

Lemma decayCell_timeLeft (L : Z) (c : Cell) :
  0 ≤ timeLeft c ≤ L → 0 ≤ timeLeft (decayCell c) ≤ L.
Proof.
  unfold decayCell. destruct c as [i r k a t n]. cbn.
  destruct (a && negb n); cbn; [| done].
  destruct (Z.leb_spec (t - 100) 0); cbn; lia.
Qed.

Lemma timeLeft_change (s s' : State) :
  heap_change s s' →
  Forall (λ c, 0 ≤ timeLeft c ≤ blockLifetimeMs (level s)) (boardCells s) →
  Forall (λ c, 0 ≤ timeLeft c ≤ blockLifetimeMs (level s)) (boardCells s').
Proof.
  pose proof (blockLifetimeMs_pos (level s)) as HL.
  intros Hch Hall. rewrite list.Forall_forall in Hall.
  assert (Hold : ∀ loc c, loc ∈ gameBoard s → heap s !! loc = Some c →
            0 ≤ timeLeft c ≤ blockLifetimeMs (level s)).
  { intros loc c Hin Hc. apply Hall, elem_of_boardCells. eauto. }
  apply list.Forall_forall. intros c' Hc'.
  apply elem_of_boardCells in Hc' as (loc' & Hin' & Hc').
  destruct Hch as [Hh Hb Hr | loc c Hin Hc Hact Hh Hb Hr
                  | loc c Hin Hc Hact Hh Hb Hr | loc rest Hq Hh Hb Hr
                  | Hh Hb Hr | Hh Hb Hr].
  - rewrite Hh in Hc'. rewrite Hb in Hin'. by eapply Hold.
  - rewrite Hb in Hin'. rewrite Hh in Hc'.
    apply list_lookup_insert_Some in Hc' as [(_ & <- & _) | (_ & Hc')].
    + unfold spawnedCell, blockLifetimeMs in *. cbn. lia.
    + by eapply Hold.
  - rewrite Hb in Hin'. rewrite Hh in Hc'.
    apply list_lookup_insert_Some in Hc' as [(_ & <- & _) | (_ & Hc')].
    + cbn. exact (Hold loc c Hin Hc).
    + by eapply Hold.
  - rewrite Hb in Hin'. rewrite Hh, list_lookup_alter in Hc'.
    destruct (decide (loc = loc')) as [<- | Hne]; [| by eapply Hold].
    destruct (heap s !! loc); [| discriminate]. injection Hc' as <-.
    cbn. lia.
  - rewrite Hb in Hin'. rewrite Hh in Hc'.
    destruct (foldl_alter_keeps
                (λ c, 0 ≤ timeLeft c ≤ blockLifetimeMs (level s))
                decayCell _ _ _ _ (decayCell_timeLeft _) Hc')
      as (c & Hc & Hkeep).
    apply Hkeep. by eapply Hold.
  - rewrite Hb in Hin'. rewrite Hh in Hc'. apply elem_of_seq in Hin'.
    rewrite lookup_app_r in Hc' by lia.
    destruct (fresh_lookup_blank _ _ Hc') as (_ & -> & _). lia.
Qed.

Lemma timeLeft_inv_fresh (s : State) :
  boardCells s = freshCells → timeLeft_inv s.
Proof.
  intros Hb _. rewrite Hb. pose proof (blockLifetimeMs_pos (level s)).
  pose proof freshCells_blank as Hf. rewrite list.Forall_forall in Hf.
  apply list.Forall_forall. intros c Hc.
  destruct (Hf c Hc) as (_ & -> & _). lia.
Qed.

Lemma timeLeft_inv_step (s : State) (ev : Event) :
  timeLeft_inv s → timeLeft_inv (step s ev).
Proof.
  intros Hinv.
  destruct (playEvent ev) eqn:Hplay; [destruct (isClockTick ev) eqn:Hclock |].
  - destruct ev; try discriminate. cbn [step].
    destruct (gameTimer s); [| done]. unfold clockTick.
    cbn [gameTimeLeft set_gameTimeLeft].
    destruct (_ <=? _); [| exact Hinv].
    unfold endGame, timeLeft_inv. rewrite stopGame_eq. done.
  - pose proof (sessionFields_board_event s ev Hplay Hclock) as Hf.
    unfold sessionFields in Hf. injection Hf as Hl _ _ _ _ Hr _ _.
    unfold timeLeft_inv. rewrite Hl, Hr. intros Hrun.
    apply timeLeft_change; [apply heap_change_step | by apply Hinv].
  - destruct ev as [| | | | | h1 h2 h3 w h | | | n h1 h2 h3 w h];
      try discriminate Hplay; cbn [step].
    + apply timeLeft_inv_fresh, boardCells_startGame.
    + unfold timeLeft_inv. rewrite stopGame_eq. done.
    + apply timeLeft_inv_fresh, boardCells_resetGame.
    + unfold changeLevel. cbn [isGameRunning set_level].
      destruct (isGameRunning s) eqn:Hr.
      * apply timeLeft_inv_fresh, boardCells_startGame.
      * unfold timeLeft_inv. cbn [isGameRunning set_level]. congruence.
Qed.

Lemma timeLeft_inv_run (s : State) (evs : list Event) :
  timeLeft_inv s → timeLeft_inv (run s evs).
Proof.
  revert s. induction evs as [| ev evs IH]; intros s Hinv; [done |].
  apply IH. by apply timeLeft_inv_step.
Qed.

(** X14. While a round is running, at every turn of the event loop, no
    block of the board has more time left than the block lifetime of the
    current level, nor less than 0: the timer bar, whose width is
    [timeLeft] over that lifetime, stays within its cell. *)
Theorem timeLeft_within_lifetime (w h : Z) (evs : list Event) :
  let s := run (mounted w h) evs in
  isGameRunning s = true →
  Forall (λ c, 0 ≤ timeLeft c ≤ blockLifetimeMs (level s)) (boardCells s).
Proof.
  cbv zeta. apply timeLeft_inv_run. unfold timeLeft_inv, mounted. done.
Qed.

Lemma timeLeft_within_lifetime_witness :
  isGameRunning (run (mounted 1280 720)
                   [EvStart 1 2 3 1280 720; EvSpawnTick 5; EvDecayTick]) = true
  ∧ Forall (λ c, 0 ≤ timeLeft c ≤ 5000)
      (boardCells (run (mounted 1280 720)
                     [EvStart 1 2 3 1280 720; EvSpawnTick 5; EvDecayTick])).
Proof.
  assert (Hr : isGameRunning (run (mounted 1280 720)
                 [EvStart 1 2 3 1280 720; EvSpawnTick 5; EvDecayTick]) = true)
    by (vm_compute; reflexivity).
  split; [exact Hr |].
  exact (timeLeft_within_lifetime 1280 720
           [EvStart 1 2 3 1280 720; EvSpawnTick 5; EvDecayTick] Hr).
Defined.

(** ** The spawner on a filling board *)

Lemma spawnWhiteBlock_cases (rnd : nat) (s : State) :
  (availableCells s = [] ∧ spawnWhiteBlock rnd s = Some s)
  ∨ (∃ loc c, loc ∈ availableCells s ∧ heap s !! loc = Some c
       ∧ isActive c = false
       ∧ spawnWhiteBlock rnd s
           = Some (set_totalSpawned (totalSpawned s + 1)
                     (set_heap
                        (<[loc := spawnedCell (whiteDuration (level s) * 1000) c]>
                           (heap s)) s))).
Proof.
  unfold spawnWhiteBlock. fold (availableCells s).
  destruct (Nat.eqb_spec (length (availableCells s)) 0) as [Hlen | Hlen].
  - left. by apply nil_length_inv in Hlen.
  - right.
    assert (Hidx : (rnd mod length (availableCells s)
                    < length (availableCells s))%nat)
      by (by apply Nat.mod_upper_bound).
    apply lookup_lt_is_Some in Hidx as [loc Hloc]. rewrite Hloc.
    assert (Hin : loc ∈ availableCells s) by (by eapply list_elem_of_lookup_2).
    pose proof Hin as Hin'. unfold availableCells in Hin'.
    apply list_elem_of_filter in Hin' as [Hina _].
    apply inactiveAt_true in Hina as (c & Hc & Hact).
    exists loc, c. repeat split; try done.
    by rewrite (alter_insert_lookup _ _ _ _ Hc).
Qed.

Lemma filter_ext_elem_of (P Q : nat → Prop) `{∀ x, Decision (P x)}
    `{∀ x, Decision (Q x)} (l : list nat) :
  (∀ x, x ∈ l → (P x ↔ Q x)) → filter P l = filter Q l.
Proof.
  induction l as [| x l IH]; intros Hiff; [done |].
  rewrite !filter_cons.
  pose proof (Hiff x (list_elem_of_here x l)) as Hx.
  rewrite IH by (intros y Hy; by apply Hiff, list_elem_of_further).
  destruct (decide (P x)), (decide (Q x)); tauto || done.
Qed.

Lemma filter_lose_one (P Q : nat → Prop) `{∀ x, Decision (P x)}
    `{∀ x, Decision (Q x)} (l : list nat) (loc : nat) :
  NoDup l → loc ∈ l → P loc → ¬ Q loc →
  (∀ x, x ≠ loc → (P x ↔ Q x)) →
  length (filter P l) = S (length (filter Q l)).
Proof.
  intros Hnd. induction Hnd as [| x l Hx Hnd IH]; intros Hin HP HQ Hiff.
  - by apply not_elem_of_nil in Hin.
  - destruct (decide (x = loc)) as [-> | Hne].
    + rewrite filter_cons_True, filter_cons_False by done. cbn [length].
      f_equal. f_equal. apply filter_ext_elem_of.
      intros y Hy. apply Hiff. intros ->. done.
    + apply elem_of_cons in Hin as [-> | Hin]; [done |].
      rewrite !filter_cons. pose proof (Hiff x Hne) as Hxiff.
      specialize (IH Hin HP HQ Hiff).
      destruct (decide (P x)), (decide (Q x)); cbn [length];
        try tauto; by rewrite IH.
Qed.

Lemma availableCells_spawned (s : State) (loc : nat) (c : Cell) (v : Z) :
  NoDup (gameBoard s) → loc ∈ availableCells s → heap s !! loc = Some c →
  length (availableCells s)
    = S (length (availableCells
                   (set_totalSpawned v
                      (set_heap (<[loc := spawnedCell (whiteDuration (level s) * 1000) c]>
                                   (heap s)) s)))).
Proof.
  intros Hnd Hin Hc. unfold availableCells in *.
  apply list_elem_of_filter in Hin as [Hina Hin].
  cbn [heap gameBoard set_heap set_totalSpawned].
  apply (filter_lose_one _ _ _ loc); try done.
  - unfold inactiveAt.
    rewrite list_lookup_insert_eq by (by eapply lookup_lt_Some). done.
  - intros x Hne. unfold inactiveAt.
    by rewrite list_lookup_insert_ne.
Qed.

Lemma spawn_run (rnds : list nat) (s : State) :
  NoDup (gameBoard s) → isGameRunning s = true → is_Some (gameInterval s) →
  let s' := run s (EvSpawnTick <$> rnds) in
  let k := (length rnds `min` length (availableCells s))%nat in
  totalSpawned s' = totalSpawned s + Z.of_nat k
  ∧ length (availableCells s') = (length (availableCells s) - k)%nat
  ∧ score s' = score s.
Proof.
  revert s. induction rnds as [| rnd rnds IH]; intros s Hnd Hrun [t Ht].
  - cbv zeta. cbn. split; [lia |]. split; [lia | done].
  - cbv zeta. cbn [fmap list_fmap].
    change (run s (EvSpawnTick rnd :: (EvSpawnTick <$> rnds)))
      with (run (step s (EvSpawnTick rnd)) (EvSpawnTick <$> rnds)).
    cbn [step]. rewrite Ht. unfold spawnTick. rewrite Hrun.
    destruct (spawnWhiteBlock_cases rnd s)
      as [(Hnil & ->) | (loc & c & Hin & Hc & Hact & ->)].
    + change (default s (Some s)) with s.
      specialize (IH s Hnd Hrun ltac:(by eexists)). cbv zeta in IH.
      rewrite Hnil in IH |- *. cbn [length] in *.
      rewrite Nat.min_0_r in IH |- *. exact IH.
    + match goal with |- context [default s (Some ?x)] =>
        change (default s (Some x)) with x; set (s1 := x) end.
      pose proof (availableCells_spawned s loc c (totalSpawned s + 1)
                    Hnd Hin Hc) as Hlen.
      fold s1 in Hlen.
      specialize (IH s1 Hnd Hrun ltac:(by eexists)). cbv zeta in IH.
      destruct IH as (IHt & IHa & IHs).
      rewrite IHt, IHa, IHs, Hlen. cbn [length totalSpawned score s1
        set_totalSpawned set_heap].
      repeat split; lia.
Qed.

Lemma availableCells_startGame (h1 h2 h3 : positive) (w h : Z) (s : State) :
  length (availableCells (startGame h1 h2 h3 w h s)) = 72%nat.
Proof.
  unfold availableCells. rewrite startGame_eq. cbn [heap gameBoard].
  rewrite filter_all by (intros loc Hloc; by apply inactiveAt_fresh).
  by rewrite length_seq.
Qed.

Lemma available_none_all_active (s : State) :
  availableCells s = [] → Forall (λ c, isActive c = true) (boardCells s).
Proof.
  intros Hnil. apply list.Forall_forall. intros c Hc.
  apply elem_of_boardCells in Hc as (loc & Hin & Hc).
  destruct (isActive c) eqn:Hact; [done |].
  assert (Hav : loc ∈ availableCells s).
  { unfold availableCells. apply list_elem_of_filter. split; [| done].
    apply inactiveAt_true. eauto. }
  rewrite Hnil in Hav. by apply not_elem_of_nil in Hav.
Qed.

(** X15. From a fresh start, spawner ticks alone (no decay tick, click or
    removal in between) fill the board one inactive cell per tick,
    whatever the random draws: after n ticks [totalSpawned] is
    [min(n, 72)] and [72 - min(n, 72)] cells are still inactive, so once
    the 72 cells are taken further ticks neither spawn nor count; the
    score stays 0. *)
Theorem spawner_fills_board (h1 h2 h3 : positive) (w h : Z) (s0 : State)
    (rnds : list nat) :
  let s := run (startGame h1 h2 h3 w h s0) (EvSpawnTick <$> rnds) in
  totalSpawned s = Z.of_nat (length rnds `min` 72)
  ∧ length (availableCells s) = (72 - length rnds `min` 72)%nat
  ∧ score s = 0
  ∧ ((72 ≤ length rnds)%nat →
     Forall (λ c, isActive c = true) (boardCells s)).
Proof.
  cbv zeta.
  pose proof (spawn_run rnds (startGame h1 h2 h3 w h s0)) as H.
  cbv zeta in H. rewrite availableCells_startGame in H.
  destruct H as (Ht & Ha & Hs).
  - rewrite startGame_eq. apply NoDup_seq.
  - by rewrite startGame_eq.
  - rewrite startGame_eq. by eexists.
  - split; [rewrite Ht; by rewrite startGame_eq |].
    split; [exact Ha |].
    split; [rewrite Hs; by rewrite startGame_eq |].
    intros Hfull. apply available_none_all_active.
    apply nil_length_inv. rewrite Ha. lia.
Qed.

Lemma spawner_fills_board_witness :
  (72 ≤ length (replicate 80 7%nat))%nat
  ∧ totalSpawned (run started (EvSpawnTick <$> replicate 80 7%nat)) = 72
  ∧ Forall (λ c, isActive c = true)
      (boardCells (run started (EvSpawnTick <$> replicate 80 7%nat))).
Proof.
  assert (Hlen : (72 ≤ length (replicate 80 7%nat))%nat)
    by (vm_compute; lia).
  split; [exact Hlen |].
  destruct (spawner_fills_board 1 2 3 1280 720 (mounted 1280 720)
              (replicate 80 7%nat)) as (Ht & _ & _ & Hall).
  split; [exact Ht | exact (Hall Hlen)].
Defined.

(** ** Controller calls *)

(** X16. Stopping is idempotent, the end of the round leaves exactly the
    state a manual stop leaves, and a stop before or after a reset adds
    nothing to the reset. *)
Theorem stopGame_absorbed (s : State) :
  stopGame (stopGame s) = stopGame s
  ∧ endGame s = stopGame s
  ∧ resetGame (stopGame s) = resetGame s
  ∧ stopGame (resetGame s) = resetGame s.
Proof.
  split; [by rewrite !stopGame_eq |].
  split; [unfold endGame; by rewrite stopGame_eq |].
  split; [by rewrite !resetGame_eq, stopGame_eq |].
  by rewrite stopGame_eq, resetGame_eq.
Qed.

Lemma view_startGame (h1 h2 h3 : positive) (w h : Z) (s : State) :
  view (startGame h1 h2 h3 w h s) =
    mkView (level s) 0 0 freshCells (Some h1) (Some h2) (Some h3) 60 true
      (isFullscreen s)
      (if isFullscreen s then cellSize (calculateBoardSize w h s)
       else cellSize s).
Proof.
  unfold view. rewrite boardCells_startGame, startGame_eq.
  rewrite cellSize_calculateBoardSize.
  cbn [level score totalSpawned gameInterval updateInterval gameTimer
       gameTimeLeft isGameRunning isFullscreen cellSize].
  by destruct (isFullscreen s).
Qed.

(** X17. [startGame] from any state, running or not, shows a fresh round:
    72 blank cells, score and [totalSpawned] 0, 60 seconds, running, the
    three new timer handles in place of any old ones; the level and the
    fullscreen flag are kept, and the cell size is recomputed only in
    fullscreen.  Starting again on top of a start shows the same. *)
Theorem startGame_fresh_round (h1 h2 h3 h1' h2' h3' : positive) (w h : Z)
    (s : State) :
  view (startGame h1 h2 h3 w h s) =
    mkView (level s) 0 0 freshCells (Some h1) (Some h2) (Some h3) 60 true
      (isFullscreen s)
      (if isFullscreen s then cellSize (calculateBoardSize w h s)
       else cellSize s)
  ∧ removals (startGame h1 h2 h3 w h s) = removals s
  ∧ view (startGame h1 h2 h3 w h (startGame h1' h2' h3' w h s))
      = view (startGame h1 h2 h3 w h s).
Proof.
  split; [apply view_startGame |].
  split; [by rewrite startGame_eq |].
  rewrite !view_startGame, !cellSize_calculateBoardSize, !startGame_eq.
  cbn [level isFullscreen cellSize]. by destruct (isFullscreen s).
Qed.

Lemma availableCells_rebuilt (s : State) (hp : list Cell) :
  heap s = hp ++ freshCells →
  gameBoard s = seq (length hp) (length freshCells) →
  availableCells s = gameBoard s.
Proof.
  intros Hh Hb. unfold availableCells. rewrite Hh, Hb.
  apply filter_all. intros loc Hloc. by apply inactiveAt_fresh.
Qed.

(** The first spawn on a rebuilt board gives its cell the lifetime of the
    level in force. *)
Lemma first_spawn_after_rebuild (rnd : nat) (s : State) (hp : list Cell) :
  heap s = hp ++ freshCells →
  gameBoard s = seq (length hp) (length freshCells) →
  ∃ loc c s', spawnWhiteBlock rnd s = Some s'
    ∧ loc ∈ gameBoard s
    ∧ heap s' !! loc
        = Some (mkCell (id c) (row c) (col c) true
                  (blockLifetimeMs (level s)) false).
Proof.
  intros Hh Hb.
  pose proof (availableCells_rebuilt s hp Hh Hb) as Hav.
  destruct (spawnWhiteBlock_cases rnd s)
    as [(Hnil & _) | (loc & c & Hin & Hc & Hact & Hs')].
  - rewrite Hav, Hb in Hnil. apply (f_equal length) in Hnil.
    rewrite length_seq, length_freshCells in Hnil. discriminate.
  - eexists loc, c, _. split; [exact Hs' |].
    rewrite Hav in Hin. split; [exact Hin |].
    cbn [heap set_heap set_totalSpawned].
    rewrite list_lookup_insert_eq by (by eapply lookup_lt_Some).
    assert (Hfresh : isAnimating c = false).
    { rewrite Hb in Hin. apply elem_of_seq in Hin.
      rewrite Hh, lookup_app_r in Hc by lia.
      by destruct (fresh_lookup_blank _ _ Hc) as (_ & _ & ?). }
    unfold spawnedCell, blockLifetimeMs, set_timeLeft, set_isActive.
    cbn [id row col isActive timeLeft isAnimating].
    by rewrite Hfresh.
Qed.

(** X18. [changeLevel] on a round that is not running only stores the
    level: board, counters, clock and timers stay as they are.  On a
    running round it restarts the round at the new level: fresh
    board, score and [totalSpawned] 0, 60 seconds, and the next block
    spawned lives [blockLifetimeMs(newLevel)]. *)
Theorem changeLevel_restarts_running_round (newLevel : Z)
    (h1 h2 h3 : positive) (w h : Z) (s : State) :
  (isGameRunning s = false →
     changeLevel newLevel h1 h2 h3 w h s = set_level newLevel s)
  ∧ (isGameRunning s = true →
       let s1 := changeLevel newLevel h1 h2 h3 w h s in
       view s1 = view (startGame h1 h2 h3 w h (set_level newLevel s))
       ∧ level s1 = newLevel ∧ score s1 = 0 ∧ totalSpawned s1 = 0
       ∧ gameTimeLeft s1 = 60 ∧ isGameRunning s1 = true
       ∧ boardCells s1 = freshCells
       ∧ ∀ rnd, ∃ loc c s2,
           spawnWhiteBlock rnd s1 = Some s2
           ∧ loc ∈ gameBoard s1
           ∧ heap s2 !! loc
               = Some (mkCell (id c) (row c) (col c) true
                         (blockLifetimeMs newLevel) false)).
Proof.
  unfold changeLevel. cbn [isGameRunning set_level].
  split; [by intros -> |]. intros ->. cbv zeta.
  split; [done |].
  do 5 (split; [by rewrite startGame_eq |]).
  split; [apply boardCells_startGame |].
  intros rnd.
  destruct (first_spawn_after_rebuild rnd
              (startGame h1 h2 h3 w h (set_level newLevel s)) (heap s))
    as (loc & c & s2 & Hs2 & Hin & Hc); [by rewrite startGame_eq .. |].
  exists loc, c, s2. split; [exact Hs2 |]. split; [exact Hin |].
  rewrite Hc. by rewrite startGame_eq.
Qed.

Lemma changeLevel_restarts_running_round_witness :
  (isGameRunning firstSpawn = true
   ∧ score (changeLevel 3 4 5 6 1280 720 firstSpawn) = 0
   ∧ level (changeLevel 3 4 5 6 1280 720 firstSpawn) = 3)
  ∧ (isGameRunning (stopGame firstSpawn) = false
     ∧ changeLevel 3 4 5 6 1280 720 (stopGame firstSpawn)
         = set_level 3 (stopGame firstSpawn)).
Proof.
  assert (Hr : isGameRunning firstSpawn = true) by (vm_compute; reflexivity).
  assert (Hs : isGameRunning (stopGame firstSpawn) = false)
    by (vm_compute; reflexivity).
  destruct (changeLevel_restarts_running_round 3 4 5 6 1280 720 firstSpawn)
    as [_ Hrun].
  destruct (Hrun Hr) as (_ & Hl & Hsc & _).
  destruct (changeLevel_restarts_running_round 3 4 5 6 1280 720
              (stopGame firstSpawn)) as [Hstop _].
  split; [split; [exact Hr | split; [exact Hsc | exact Hl]] |].
  split; [exact Hs | exact (Hstop Hs)].
Defined.

(** ** Instances on concrete sessions *)

Lemma calculateBoardSize_largest_fit_witness :
  boardFits 1280 720 (isFullscreen initialState) 15
  ∧ boardFits 1280 720 (isFullscreen initialState)
      (cellSize (calculateBoardSize 1280 720 initialState)).
Proof.
  assert (H15 : boardFits 1280 720 (isFullscreen initialState) 15)
    by (unfold boardFits; cbn; lia).
  split; [exact H15 |].
  destruct (calculateBoardSize_largest_fit 1280 720 initialState)
    as (_ & _ & _ & _ & Hfit).
  exact (Hfit H15).
Defined.

Lemma clock_and_layout_in_range_witness :
  isGameRunning
    (uiRun (mounted 1280 720)
       [UiGame (EvStart 1 2 3 1280 720); UiFullscreenChange true 1920 1080;
        UiGame EvClockTick; UiResize 300 200]) = true
  ∧ 1 ≤ gameTimeLeft
          (uiRun (mounted 1280 720)
             [UiGame (EvStart 1 2 3 1280 720);
              UiFullscreenChange true 1920 1080;
              UiGame EvClockTick; UiResize 300 200])
  ∧ 15 ≤ cellSize
           (uiRun (mounted 1280 720)
              [UiGame (EvStart 1 2 3 1280 720);
               UiFullscreenChange true 1920 1080;
               UiGame EvClockTick; UiResize 300 200]) ≤ 50.
Proof.
  assert (Hr : isGameRunning
                 (uiRun (mounted 1280 720)
                    [UiGame (EvStart 1 2 3 1280 720);
                     UiFullscreenChange true 1920 1080;
                     UiGame EvClockTick; UiResize 300 200]) = true)
    by (vm_compute; reflexivity).
  split; [exact Hr |].
  destruct (clock_and_layout_in_range 1280 720
              [UiGame (EvStart 1 2 3 1280 720);
               UiFullscreenChange true 1920 1080;
               UiGame EvClockTick; UiResize 300 200])
    as (_ & Hpos & _ & _ & Hc).
  split; [exact (Hpos Hr) | exact Hc].
Defined.

Lemma animating_cells_are_pending_witness :
  (77%nat ∈ gameBoard (run (mounted 1280 720)
                        [EvStart 1 2 3 1280 720; EvSpawnTick 5; EvClick 5])
   ∧ heap (run (mounted 1280 720)
             [EvStart 1 2 3 1280 720; EvSpawnTick 5; EvClick 5]) !! 77%nat
       = Some (mkCell 5 0 5 true 5000 true))
  ∧ 77%nat ∈ removals (run (mounted 1280 720)
                         [EvStart 1 2 3 1280 720; EvSpawnTick 5; EvClick 5]).
Proof.
  assert (Hin : 77%nat ∈ gameBoard (run (mounted 1280 720)
                  [EvStart 1 2 3 1280 720; EvSpawnTick 5; EvClick 5]))
    by (apply (bool_decide_unpack _); vm_compute; exact I).
  assert (Hc : heap (run (mounted 1280 720)
                  [EvStart 1 2 3 1280 720; EvSpawnTick 5; EvClick 5]) !! 77%nat
               = Some (mkCell 5 0 5 true 5000 true))
    by (vm_compute; reflexivity).
  split; [split; [exact Hin | exact Hc] |].
  destruct (animating_cells_are_pending 1280 720
              [EvStart 1 2 3 1280 720; EvSpawnTick 5; EvClick 5]
              77%nat (mkCell 5 0 5 true 5000 true) Hin Hc) as [_ Hpend].
  exact (proj2 (Hpend eq_refl)).
Defined.

Lemma removals_drain_witness :
  (77%nat ∈ removals (run (mounted 1280 720)
                       [EvStart 1 2 3 1280 720; EvSpawnTick 5; EvClick 5])
   ∧ heap (run (mounted 1280 720)
             [EvStart 1 2 3 1280 720; EvSpawnTick 5; EvClick 5]) !! 77%nat
       = Some (mkCell 5 0 5 true 5000 true))
  ∧ heap (Nat.iter
            (length (removals
                       (run (mounted 1280 720)
                          [EvStart 1 2 3 1280 720; EvSpawnTick 5; EvClick 5])))
            fireRemoval
            (run (mounted 1280 720)
               [EvStart 1 2 3 1280 720; EvSpawnTick 5; EvClick 5])) !! 77%nat
    = Some (mkCell 5 0 5 false 0 false).
Proof.
  assert (Hin : 77%nat ∈ removals (run (mounted 1280 720)
                  [EvStart 1 2 3 1280 720; EvSpawnTick 5; EvClick 5]))
    by (apply (bool_decide_unpack _); vm_compute; exact I).
  assert (Hc : heap (run (mounted 1280 720)
                  [EvStart 1 2 3 1280 720; EvSpawnTick 5; EvClick 5]) !! 77%nat
               = Some (mkCell 5 0 5 true 5000 true))
    by (vm_compute; reflexivity).
  split; [split; [exact Hin | exact Hc] |].
  destruct (removals_drain 1280 720
              [EvStart 1 2 3 1280 720; EvSpawnTick 5; EvClick 5])
    as (_ & _ & Hrem & _).
  exact (Hrem 77%nat (mkCell 5 0 5 true 5000 true) Hin Hc).
Defined.

(** ** How long an unclicked block lives *)

Lemma decay_iter (i r k t : Z) (n : nat) :
  0 < t →
  Nat.iter n decayCell (mkCell i r k true t false) =
    if 100 * Z.of_nat n <? t
    then mkCell i r k true (t - 100 * Z.of_nat n) false
    else mkCell i r k false 0 false.
Proof.
  intros Ht. induction n as [| n IH].
  - destruct (Z.ltb_spec (100 * Z.of_nat 0) t); [| lia].
    cbn [Nat.iter nat_rect]. f_equal. lia.
  - rewrite Nat.iter_succ, IH.
    destruct (Z.ltb_spec (100 * Z.of_nat n) t) as [Hn | Hn];
      destruct (Z.ltb_spec (100 * Z.of_nat (S n)) t) as [Hn' | Hn'];
      try lia; [| | reflexivity];
      unfold decayCell; cbn -[Z.of_nat Z.sub Z.mul Z.leb];
      destruct (Z.leb_spec (t - 100 * Z.of_nat n - 100) 0) as [Hz | Hz];
      try lia.
    + unfold set_timeLeft. cbn [id row col isActive isAnimating].
      f_equal. lia.
    + reflexivity.
Qed.

Lemma heap_iter_updateGame (n : nat) (s : State) (loc : nat) :
  NoDup (gameBoard s) → loc ∈ gameBoard s →
  heap (Nat.iter n updateGame s) !! loc = Nat.iter n decayCell <$> heap s !! loc.
Proof.
  intros Hnd Hin. induction n as [| n IH].
  - change (Nat.iter 0 updateGame s) with s. by destruct (heap s !! loc).
  - rewrite !Nat.iter_succ.
    rewrite updateGame_lookup by (by rewrite gameBoard_iter_updateGame).
    rewrite IH. by destruct (heap s !! loc).
Qed.

(** X19. On a board of distinct cells, a block that is active, not
    animating and has [t > 0] ms left, when only decay ticks pass, is
    still active with [t - 100 n] ms after [n] ticks as long as
    [100 n < t], and from the first tick with [100 n >= t] on it is
    inactive with [timeLeft] 0 and stays so: it lives exactly
    [ceil(t / 100)] ticks. *)
Theorem block_expires_after_lifetime (s : State) (loc : nat) (c : Cell)
    (n : nat) :
  NoDup (gameBoard s) → loc ∈ gameBoard s → heap s !! loc = Some c →
  isActive c = true → isAnimating c = false → 0 < timeLeft c →
  (100 * Z.of_nat n < timeLeft c →
     heap (Nat.iter n updateGame s) !! loc
       = Some (mkCell (id c) (row c) (col c) true
                 (timeLeft c - 100 * Z.of_nat n) false))
  ∧ (timeLeft c ≤ 100 * Z.of_nat n →
       heap (Nat.iter n updateGame s) !! loc
         = Some (mkCell (id c) (row c) (col c) false 0 false)).
Proof.
  intros Hnd Hin Hc Hact Han Ht.
  rewrite heap_iter_updateGame, Hc by done.
  destruct c as [i r k a t an]. cbn in Hact, Han, Ht |- *. subst a an.
  rewrite decay_iter by done.
  destruct (Z.ltb_spec (100 * Z.of_nat n) t); split; intros; (done || lia).
Qed.

Lemma block_expires_after_lifetime_witness :
  (NoDup (gameBoard firstSpawn) ∧ 77%nat ∈ gameBoard firstSpawn
   ∧ heap firstSpawn !! 77%nat = Some (mkCell 5 0 5 true 5000 false))
  ∧ heap (Nat.iter 50 updateGame firstSpawn) !! 77%nat
    = Some (mkCell 5 0 5 false 0 false).
Proof.
  assert (Hnd : NoDup (gameBoard firstSpawn))
    by (apply (bool_decide_unpack _); vm_compute; exact I).
  assert (Hin : 77%nat ∈ gameBoard firstSpawn)
    by (apply (bool_decide_unpack _); vm_compute; exact I).
  assert (Hc : heap firstSpawn !! 77%nat = Some (mkCell 5 0 5 true 5000 false))
    by (vm_compute; reflexivity).
  split; [auto |].
  destruct (block_expires_after_lifetime firstSpawn 77
              (mkCell 5 0 5 true 5000 false) 50 Hnd Hin Hc eq_refl eq_refl
              ltac:(cbn; lia)) as [_ Hgone].
  apply Hgone. cbn. lia.
Defined.

(** ** A run without a click on an animating cell *)

(** X20. From a fresh start, along every interleaving of timer ticks,
    clicks, removals and controller calls in which no click lands on a
    cell that is animating, the score never exceeds [totalSpawned]; more
    precisely the score plus the number of blocks still waiting to be
    clicked never exceeds it. *)
Theorem score_within_spawned_when_guarded (h1 h2 h3 : positive) (w h : Z)
    (s0 : State) (evs : list Event) :
  guarded_run (startGame h1 h2 h3 w h s0) evs →
  let s := run (startGame h1 h2 h3 w h s0) evs in
  0 ≤ liveBlocks s
  ∧ score s + liveBlocks s ≤ totalSpawned s
  ∧ score s ≤ totalSpawned s.
Proof.
  intros Hg. cbv zeta.
  destruct (score_inv_run _ evs Hg (score_inv_startGame h1 h2 h3 w h s0))
    as [_ Hle].
  pose proof (liveCount_nonneg
                (heap (run (startGame h1 h2 h3 w h s0) evs))
                (gameBoard (run (startGame h1 h2 h3 w h s0) evs))) as Hn.
  unfold liveBlocks in *. lia.
Qed.

Lemma score_within_spawned_when_guarded_witness :
  guarded_run started [EvSpawnTick 5; EvClick 5; EvRemoval]
  ∧ score (run started [EvSpawnTick 5; EvClick 5; EvRemoval])
      ≤ totalSpawned (run started [EvSpawnTick 5; EvClick 5; EvRemoval]).
Proof.
  assert (Hg : guarded_run started [EvSpawnTick 5; EvClick 5; EvRemoval]).
  { cbn [guarded_run guarded]. split; [exact I |]. split; [| done].
    intros cell c Hb Hc.
    assert (Hb' : gameBoard (step started (EvSpawnTick 5)) !! 5%nat
                  = Some 77%nat) by (vm_compute; reflexivity).
    rewrite Hb' in Hb. injection Hb as <-.
    assert (Hc' : heap (step started (EvSpawnTick 5)) !! 77%nat
                  = Some (mkCell 5 0 5 true 5000 false))
      by (vm_compute; reflexivity).
    rewrite Hc' in Hc. by injection Hc as <-. }
  split; [exact Hg |].
  destruct (score_within_spawned_when_guarded 1 2 3 1280 720
              (mounted 1280 720) [EvSpawnTick 5; EvClick 5; EvRemoval] Hg)
    as (_ & _ & Hle).
  exact Hle.
Defined.
